(** * SatGate Python SDK: the paying HTTP session

    A shallow embedding of [sdk/python/satgate/client.py]: the class
    [SatGateSession] (a [requests.Session] whose [request] answers a
    402 challenge by paying the invoice and retrying once) and the
    properties of its challenge parsing, payment delegation, credential
    construction and retry.

    Layout: Python string primitives and the two regular expressions,
    the object store and the effect monad, the two methods of the
    session, a scripted test double for the transport and the wallet,
    and then the theorems. *)

From Stdlib Require Import ZArith String Ascii List Lia.
From stdpp Require Import base option gmap strings list.

Open Scope string_scope.

(** ** Python string primitives

    A [str] is a [string]; its characters are those of [ascii]. *)

(** The double quote character (code 34). *)
Definition dq : ascii := "034"%char.

(** [quoted v] is the text [v] between two double quotes. *)
Definition quoted (v : string) : string := String dq (v +:+ String dq "").

Module Py.

(** [strip_prefix p s]: when [s] starts with the literal [p], what
    follows it. *)
Fixpoint strip_prefix (p s : string) : option string :=
  match p, s with
  | "", _ => Some s
  | String a p', String b s' =>
      if Ascii.eqb a b then strip_prefix p' s' else None
  | String _ _, "" => None
  end.

(** [contains p s] is Python's [p in s] on [str]: [p] occurs in [s] at
    some position. *)
Fixpoint contains (p s : string) : bool :=
  match strip_prefix p s with
  | Some _ => true
  | None =>
      match s with
      | "" => false
      | String _ s' => contains p s'
      end
  end.

(** [take n s] is the slice [s[:n]]. *)
Fixpoint take (n : nat) (s : string) : string :=
  match n, s with
  | S n', String a s' => String a (take n' s')
  | _, _ => ""
  end.

(** [drop n s] is the slice [s[n:]]. *)
Fixpoint drop (n : nat) (s : string) : string :=
  match n, s with
  | S n', String _ s' => drop n' s'
  | _, _ => s
  end.

(** [last n s] is the slice [s[-n:]] for [n > 0]: the last [n]
    characters, the whole string when it is shorter. *)
Definition last (n : nat) (s : string) : string :=
  drop (String.length s - n) s.

(** [repeat s n] is the product [s * n]: [n] copies of [s]. *)
Fixpoint repeat (s : string) (n : nat) : string :=
  match n with
  | O => ""
  | S n' => s +:+ repeat s n'
  end.

End Py.

(** ** The regular expressions

    The client calls [re.search] on the header with two patterns and
    reads [group(1)].  Writing Q for the double quote, the patterns are
    [macaroon=Q([^Q]+)Q] and [invoice=Q([^Q]+)Q]: a literal key, an equals
    sign, a quote, a greedy non-empty run of characters other than the
    quote (captured), a quote. *)
Module Re.

(** The greedy run of non-quote characters: the longest quote-free
    prefix and the rest. *)
Fixpoint span_nonquote (s : string) : string * string :=
  match s with
  | "" => ("", "")
  | String c s' =>
      if Ascii.eqb c dq then ("", s)
      else let '(v, r) := span_nonquote s' in (String c v, r)
  end.

(** One match attempt anchored at the start of [s].  The run taken by
    the character class is maximal: a shorter run would be followed by
    a character that is not a quote, so backtracking never finds
    another match. *)
Definition match_here (key s : string) : option string :=
  match Py.strip_prefix (key +:+ "=" +:+ String dq "") s with
  | None => None
  | Some rest =>
      let '(v, after) := span_nonquote rest in
      match v, Py.strip_prefix (String dq "") after with
      | String _ _, Some _ => Some v
      | _, _ => None
      end
  end.

(** [search key s]: [group(1)] of the leftmost match of the pattern
    for [key] in [s], [None] when there is no match. *)
Fixpoint search (key s : string) : option string :=
  match match_here key s with
  | Some v => Some v
  | None =>
      match s with
      | "" => None
      | String _ s' => search key s'
      end
  end.

End Re.

(** ** Exceptions, log lines, results

    The exceptions of the model are instances of Python's [Exception]:
    what a transport or a wallet raises to report a failure, and the
    [ValueError] the client raises itself.  Interpreter signals outside
    [Exception] (keyboard interrupt, interpreter exit) are not modelled. *)
Inductive exn : Type :=
| RequestException (msg : string)
| ValueError (msg : string)
| OtherException (msg : string).

Definition is_RequestException (e : exn) : bool :=
  match e with
  | RequestException _ => true
  | _ => false
  end.

(** One constructor per [print] of the client, with the interpolated
    values. *)
Inductive log : Type :=
| LogNoHeader
| LogNoScheme
| LogInvalidFormat
| LogDetected
| LogInvoice (first20 last10 : string)
| LogPaymentConfirmed (first10 : string)
| LogPaymentFailed (e : exn)
| LogRetrying.

(** How a call ends: with a value or with an exception. *)
Inductive Result (A : Type) : Type :=
| Returned (a : A)
| Raised (e : exn).
Arguments Returned {A} a.
Arguments Raised {A} e.

(** ** Challenge parsing (client.py, lines 48 to 64)

    The scheme test and the two searches of [_handle_payment_flow], in
    the order of the source.  The left injection carries the line that
    the early return prints, the right one the two captured groups
    [(macaroon, invoice)]. *)
Definition parse_challenge (auth_header : string) : log + string * string :=
  if negb (Py.contains "L402" auth_header) && negb (Py.contains "LSAT" auth_header)
  then inl LogNoScheme
  else
    match Re.search "macaroon" auth_header, Re.search "invoice" auth_header with
    | Some macaroon, Some invoice => inr (macaroon, invoice)
    | _, _ => inl LogInvalidFormat
    end.

(** The f-string of line 83. *)
Definition l402_token (macaroon preimage : string) : string :=
  "L402 " +:+ macaroon +:+ ":" +:+ preimage.

(** What the [try] block of lines 70 to 77 makes of the wallet's outcome:
    the exception handed to the handler, [None] when the block completes.
    [None] and the empty string are the falsy preimages of line 72. *)
Definition payment_error (out : Result (option string)) : option exn :=
  match out with
  | Raised e => Some e
  | Returned (Some (String _ _)) => None
  | Returned _ => Some (ValueError "Wallet returned empty preimage")
  end.

(** ** The wallet interface (client.py, lines 8 to 14)

    [LightningWallet] is an abstract class with the one method
    [pay_invoice].  A wallet has a state [Env] of its own; the method
    returns a preimage or raises.  The result is an optional string so
    that a wallet which returns [None] can be told from one that returns
    the empty string. *)
Class LightningWallet (Env : Type) : Type :=
  wallet_pay_invoice : string -> Env -> Result (option string) * Env.

(** ** The object store

    Header dictionaries are mutable objects shared by reference: the
    store is the list of allocated dictionaries and a reference is an
    index into it.  [kwargs] itself is rebuilt at every call (Python
    packs keyword arguments into a new dict), so it is a value. *)
Definition loc := nat.
Abbreviation dict := (gmap string string).
Abbreviation heap := (list (gmap string string)).

(** The [headers] keyword argument: not passed, passed as [None], or a
    reference to the caller's dict. *)
Inductive headers_arg : Type :=
| HeadersAbsent
| HeadersNone
| HeadersDict (l : loc).

Section Session.

(** Positional arguments, the keyword arguments other than [headers],
    and the response object are passed through untouched; the client
    reads a response only through its status code and
    [headers.get(name)]. *)
Context {Args Options Response : Type}.
Variable status_code : Response -> Z.
Variable headers_get : Response -> string -> option string.

Record Kwargs : Type := { kw_headers : headers_arg; kw_other : Options }.

Record Call : Type :=
  { c_method : string; c_url : string; c_args : Args; c_kwargs : Kwargs }.

(** The two collaborators share a state [Env] of their own: the
    transport, an oracle which sees the call and the store, and the
    wallet bound at construction.  The transport stands for the whole
    call expression [super().request(method, url, *args, **kwargs)]: an
    exception raised while Python binds the arguments counts as raised
    by it.  Neither collaborator writes to the store. *)
Context {Env : Type}.
Variable transport : Call -> heap -> Env -> Result Response * Env.
Context {wallet : LightningWallet Env}.

(** The headers that a call carries, read from the store when it is
    sent. *)
Definition wire_headers (h : heap) (kwargs : Kwargs) : option dict :=
  match kw_headers kwargs with
  | HeadersDict l => h !! l
  | _ => None
  end.

Inductive event : Type :=
| EvSend (c : Call) (hdrs : option dict) (out : Result Response)
| EvPay (invoice : string) (out : Result (option string))
| EvPrint (line : log).

Record World : Type :=
  { w_heap : heap; w_env : Env; w_trace : list event }.

(** *** State and exception monad *)
Definition M (A : Type) : Type := World -> Result A * World.

Definition ret {A} (a : A) : M A := fun w => (Returned a, w).

Definition raise {A} (e : exn) : M A := fun w => (Raised e, w).

Definition bind {A B} (m : M A) (k : A -> M B) : M B :=
  fun w =>
    match m w with
    | (Returned a, w') => k a w'
    | (Raised e, w') => (Raised e, w')
    end.

(** [try: m; except Exception as e], with the outcome reified. *)
Definition try_except {A} (m : M A) : M (Result A) :=
  fun w => let '(r, w') := m w in (Returned r, w').

Definition emit (ev : event) : M unit :=
  fun w =>
    (Returned tt,
     {| w_heap := w_heap w; w_env := w_env w; w_trace := w_trace w ++ [ev] |}).

(** [print(...)]: the line is recorded; writing it out is taken to
    succeed. *)
Definition print (line : log) : M unit := emit (EvPrint line).

(** A dict display or [copy()]: a new object at the end of the store. *)
Definition alloc (d : dict) : M loc :=
  fun w =>
    (Returned (length (w_heap w)),
     {| w_heap := w_heap w ++ [d]; w_env := w_env w; w_trace := w_trace w |}).

Definition dict_copy (l : loc) : M loc :=
  fun w => alloc (w_heap w !!! l) w.

(** [d[k] = v] on the object at [l]. *)
Definition dict_setitem (l : loc) (k v : string) : M unit :=
  fun w =>
    (Returned tt,
     {| w_heap := alter (insert k v) l (w_heap w);
        w_env := w_env w; w_trace := w_trace w |}).

Local Notation "x <- m ;; k" := (bind m (fun x => k))
  (at level 100, m at next level, right associativity).
Local Notation "m ;;; k" := (bind m (fun _ => k))
  (at level 100, right associativity).

(** *** The collaborators as actions *)

(** [super().request(method, url, *args, **kwargs)]. *)
Definition super_request (method url : string) (args : Args)
    (kwargs : Kwargs) : M Response :=
  fun w =>
    let c := {| c_method := method; c_url := url;
                c_args := args; c_kwargs := kwargs |} in
    let '(out, env') := transport c (w_heap w) (w_env w) in
    (out,
     {| w_heap := w_heap w; w_env := env';
        w_trace := w_trace w ++ [EvSend c (wire_headers (w_heap w) kwargs) out] |}).

(** [self.wallet.pay_invoice(invoice)]. *)
Definition pay_invoice (invoice : string) : M (option string) :=
  fun w =>
    let '(out, env') := wallet_pay_invoice invoice (w_env w) in
    (out,
     {| w_heap := w_heap w; w_env := env';
        w_trace := w_trace w ++ [EvPay invoice out] |}).

(** *** [SatGateSession._handle_payment_flow] (lines 37 to 98) *)
Definition _handle_payment_flow (response : Response) (method url : string)
    (args : Args) (kwargs : Kwargs) : M Response :=
  match headers_get response "WWW-Authenticate" with
  | None | Some "" => print LogNoHeader ;;; ret response
  | Some auth_header =>
      match parse_challenge auth_header with
      | inl line => print line ;;; ret response
      | inr (macaroon, invoice) =>
          print LogDetected ;;;
          print (LogInvoice (Py.take 20 invoice) (Py.last 10 invoice)) ;;;
          paid <- try_except
                    (preimage <- pay_invoice invoice ;;
                     match preimage with
                     | Some (String _ _ as p) =>
                         print (LogPaymentConfirmed (Py.take 10 p)) ;;; ret p
                     | _ => raise (ValueError "Wallet returned empty preimage")
                     end) ;;
          match paid with
          | Raised e => print (LogPaymentFailed e) ;;; ret response
          | Returned preimage =>
              let token := l402_token macaroon preimage in
              fallback <- alloc ∅ ;;
              req_headers <-
                match kw_headers kwargs with
                | HeadersAbsent => ret fallback
                | HeadersNone => alloc ∅
                | HeadersDict l => ret l
                end ;;
              req_headers <- dict_copy req_headers ;;
              dict_setitem req_headers "Authorization" token ;;;
              let kwargs := {| kw_headers := HeadersDict req_headers;
                               kw_other := kw_other kwargs |} in
              print LogRetrying ;;;
              super_request method url args kwargs
          end
      end
  end.

(** *** [SatGateSession.request] (lines 23 to 35)

    The handler of the [try] re-raises a [RequestException]; any other
    exception of the transport is not caught and leaves the method the
    same way. *)
Definition request (method url : string) (args : Args) (kwargs : Kwargs)
    : M Response :=
  sent <- try_except (super_request method url args kwargs) ;;
  match sent with
  | Raised e => if is_RequestException e then raise e else raise e
  | Returned response =>
      if (status_code response =? 402)%Z
      then _handle_payment_flow response method url args kwargs
      else ret response
  end.

(** One call of [request] from outside, on a store and a collaborator
    state, with an empty trace. *)
Definition call_request (method url : string) (args : Args) (kwargs : Kwargs)
    (h : heap) (env : Env) : Result Response * World :=
  request method url args kwargs {| w_heap := h; w_env := env; w_trace := [] |}.

(** Observations on a trace. *)
Definition is_send (ev : event) : bool :=
  match ev with EvSend _ _ _ => true | _ => false end.

Definition is_pay (ev : event) : bool :=
  match ev with EvPay _ _ => true | _ => false end.

Definition sends (t : list event) : list event := List.filter is_send t.
Definition pays (t : list event) : list event := List.filter is_pay t.

(** The content of the caller's header dict, empty when no dict was
    passed. *)
Definition caller_headers (h : heap) (kwargs : Kwargs) : dict :=
  match kw_headers kwargs with
  | HeadersDict l => h !!! l
  | _ => ∅
  end.

(** The store after lines 88 to 95 and the reference bound to
    [kwargs['headers']]: the unused default of [kwargs.get], the dict
    that replaces [None], and the copy that receives the token. *)
Definition retry_store (h : heap) (kwargs : Kwargs) (token : string)
    : heap * loc :=
  let copy := <[ "Authorization" := token ]> (caller_headers h kwargs) in
  match kw_headers kwargs with
  | HeadersNone => ((h ++ [∅; ∅; copy])%list, length h + 2)
  | _ => ((h ++ [∅; copy])%list, length h + 1)
  end.

Definition retry_call (method url : string) (args : Args) (kwargs : Kwargs)
    (l : loc) : Call :=
  {| c_method := method; c_url := url; c_args := args;
     c_kwargs := {| kw_headers := HeadersDict l; kw_other := kw_other kwargs |} |}.

(** *** The paths through [request]

    The six ways in which one call of [request] can run, each with its
    result and final world.  [request_path] and [path_request] below
    show that the function follows exactly these. *)
Section Paths.

Variables (method url : string) (args : Args) (kwargs : Kwargs).
Variables (h : heap) (env : Env).

Definition first_call : Call :=
  {| c_method := method; c_url := url; c_args := args; c_kwargs := kwargs |}.

Definition first_send (out : Result Response) : event :=
  EvSend first_call (wire_headers h kwargs) out.

Inductive path : Result Response -> World -> Prop :=
| PathTransportError e env1 :
    transport first_call h env = (Raised e, env1) ->
    path (Raised e)
      {| w_heap := h; w_env := env1; w_trace := [first_send (Raised e)] |}
| PathPassThrough r env1 :
    transport first_call h env = (Returned r, env1) ->
    status_code r <> 402%Z ->
    path (Returned r)
      {| w_heap := h; w_env := env1; w_trace := [first_send (Returned r)] |}
| PathNoHeader r env1 :
    transport first_call h env = (Returned r, env1) ->
    status_code r = 402%Z ->
    headers_get r "WWW-Authenticate" = None \/
    headers_get r "WWW-Authenticate" = Some "" ->
    path (Returned r)
      {| w_heap := h; w_env := env1;
         w_trace := [first_send (Returned r); EvPrint LogNoHeader] |}
| PathParseError r env1 a line :
    transport first_call h env = (Returned r, env1) ->
    status_code r = 402%Z ->
    headers_get r "WWW-Authenticate" = Some a ->
    a <> "" ->
    parse_challenge a = inl line ->
    path (Returned r)
      {| w_heap := h; w_env := env1;
         w_trace := [first_send (Returned r); EvPrint line] |}
| PathPaymentFailed r env1 a macaroon invoice out env2 e :
    transport first_call h env = (Returned r, env1) ->
    status_code r = 402%Z ->
    headers_get r "WWW-Authenticate" = Some a ->
    parse_challenge a = inr (macaroon, invoice) ->
    wallet_pay_invoice invoice env1 = (out, env2) ->
    payment_error out = Some e ->
    path (Returned r)
      {| w_heap := h; w_env := env2;
         w_trace :=
           [first_send (Returned r);
            EvPrint LogDetected;
            EvPrint (LogInvoice (Py.take 20 invoice) (Py.last 10 invoice));
            EvPay invoice out;
            EvPrint (LogPaymentFailed e)] |}
| PathRetry r env1 a macaroon invoice preimage env2 h2 l2 out2 env3 :
    transport first_call h env = (Returned r, env1) ->
    status_code r = 402%Z ->
    headers_get r "WWW-Authenticate" = Some a ->
    parse_challenge a = inr (macaroon, invoice) ->
    wallet_pay_invoice invoice env1 = (Returned (Some preimage), env2) ->
    preimage <> "" ->
    retry_store h kwargs (l402_token macaroon preimage) = (h2, l2) ->
    transport (retry_call method url args kwargs l2) h2 env2 = (out2, env3) ->
    path out2
      {| w_heap := h2; w_env := env3;
         w_trace :=
           [first_send (Returned r);
            EvPrint LogDetected;
            EvPrint (LogInvoice (Py.take 20 invoice) (Py.last 10 invoice));
            EvPay invoice (Returned (Some preimage));
            EvPrint (LogPaymentConfirmed (Py.take 10 preimage));
            EvPrint LogRetrying;
            EvSend (retry_call method url args kwargs l2) (h2 !! l2) out2] |}.

End Paths.

End Session.

Arguments Kwargs : clear implicits.
Arguments Call : clear implicits.
Arguments event : clear implicits.
Arguments World : clear implicits.

(** ** Vocabulary of the specification

    Declarative readings of the words of the specification, to be
    compared with the functions above. *)
Module Spec.

(** [p] occurs somewhere in [s]. *)
Definition occurs (p s : string) : Prop :=
  exists pre post, s = pre +:+ p +:+ post.

(** The positions at which [p] occurs in [s], counted from [i]. *)
Fixpoint occurrences_from (i : nat) (p s : string) : list nat :=
  (match Py.strip_prefix p s with Some _ => [i] | None => [] end ++
   match s with
   | "" => []
   | String _ s' => occurrences_from (S i) p s'
   end)%list.

Definition occurrences (p s : string) : list nat := occurrences_from 0 p s.

Definition suffix_of (p s : string) : Prop :=
  exists pre, s = pre +:+ p.

(** [ends_with p s] is Python's [s.endswith(p)]. *)
Fixpoint ends_with (p s : string) : bool :=
  String.eqb p s ||
  match s with
  | "" => false
  | String _ s' => ends_with p s'
  end.

Fixpoint quote_free (s : string) : bool :=
  match s with
  | "" => true
  | String c s' => negb (Ascii.eqb c dq) && quote_free s'
  end.

Fixpoint space_free (s : string) : bool :=
  match s with
  | "" => true
  | String c s' => negb (Ascii.eqb c " ") && space_free s'
  end.

(** [s] starts with [key], an equals sign and the non-empty quote-free
    value [v] between quotes. *)
Definition matches_at (key v s : string) : Prop :=
  v <> "" /\ quote_free v = true /\
  exists post, s = key +:+ "=" +:+ quoted v +:+ post.

(** The header has neither scheme word in it. *)
Definition lacks_scheme (a : string) : Prop :=
  ~ occurs "L402" a /\ ~ occurs "LSAT" a.

(** The three malformations of a key that the specification lists. *)
Definition key_absent (key a : string) : Prop :=
  ~ occurs (key +:+ "=") a.

Definition key_unquoted (key a : string) : Prop :=
  occurs (key +:+ "=") a /\ ~ occurs (key +:+ "=" +:+ String dq "") a.

Definition key_empty_value (key a : string) : Prop :=
  occurs (key +:+ "=" +:+ String dq "") a /\
  forall pre post, a = pre +:+ key +:+ "=" +:+ String dq post ->
                   exists post', post = String dq post'.

Definition malformed (key a : string) : Prop :=
  key_absent key a \/ key_unquoted key a \/ key_empty_value key a.

(** The challenge format of the specification: a scheme word, a space,
    and [key=Qvalue Q] pairs (Q the double quote) separated by a comma
    and a space. *)
Definition render_param (p : string * string) : string :=
  p.1 +:+ "=" +:+ quoted p.2.

Definition render_challenge (scheme : string) (ps : list (string * string))
    : string :=
  scheme +:+ " " +:+ String.concat ", " (List.map render_param ps).

Definition scheme_word (s : string) : Prop := s = "L402" \/ s = "LSAT".

(** A pair that can stand in a challenge whose [key] has the value
    [v]: no quote in its name or value, and either it is the pair
    [(key, v)] itself, or its name does not end in [key] and its value
    does not end in [key] followed by an equals sign. *)
Definition admissible (key v : string) (p : string * string) : bool :=
  quote_free p.1 && quote_free p.2 &&
  (String.eqb p.1 key && String.eqb p.2 v
   || negb (ends_with key p.1) && negb (ends_with (key +:+ "=") p.2)).

(** The header has, somewhere, [key], an equals sign and a non-empty
    quote-free value between quotes. *)
Definition has_value (key a : string) : Prop :=
  exists pre rest v, a = pre +:+ rest /\ matches_at key v rest.

Fixpoint colon_free (s : string) : bool :=
  match s with
  | "" => true
  | String c s' => negb (Ascii.eqb c ":") && colon_free s'
  end.

(** The number of double quotes in [s]. *)
Fixpoint count_quotes (s : string) : nat :=
  match s with
  | "" => 0
  | String c s' => (if Ascii.eqb c dq then 1 else 0) + count_quotes s'
  end.

End Spec.

(** ** A scripted transport and wallet

    A test double in the manner of the mock wallets of [examples/]: the
    transport hands out a prepared list of outcomes, one per send, and
    the wallet always answers with the same prepared outcome. *)
Module Mock.

Record Response : Type :=
  { status_code : Z; headers : gmap string string; text : string }.

Definition headers_get (r : Response) (name : string) : option string :=
  headers r !! name.

Record Env : Type :=
  { script : list (Result Response); proof : Result (option string) }.

Definition transport (c : Call (list string) (gmap string string))
    (h : heap) (env : Env) : Result Response * Env :=
  match script env with
  | [] => (Raised (RequestException "connection refused"), env)
  | out :: rest => (out, {| script := rest; proof := proof env |})
  end.

#[export] Instance wallet : LightningWallet Env :=
  fun invoice env => (proof env, env).

Definition call (method url : string) (args : list string)
    (kwargs : Kwargs (gmap string string)) (h : heap) (env : Env) :=
  call_request status_code headers_get transport method url args kwargs h env.

(** A 402 response carrying the given challenge header. *)
Definition challenge (auth_header : string) : Response :=
  {| status_code := 402;
     headers := {[ "WWW-Authenticate" := auth_header ]};
     text := "Payment Required" |}.

Definition ok : Response :=
  {| status_code := 200; headers := ∅; text := "data" |}.

Definition standard_header : string :=
  "L402 macaroon=" +:+ quoted "M1" +:+ ", invoice=" +:+ quoted "lnbc1".

(** The same challenge under the older scheme word, with the values
    of the credential example of the specification. *)
Definition lsat_header : string :=
  "LSAT macaroon=" +:+ quoted "abc" +:+ ", invoice=" +:+ quoted "lnbc1".

(** A header without scheme word in front, whose keys only end in
    [macaroon] and [invoice], and with L402 as a quoted value. *)
Definition suffix_header : string :=
  "Bearer notmacaroon=" +:+ quoted "L402" +:+ ", xinvoice=" +:+ quoted "lnbc1".

Definition demo_url : string := "https://api.example/premium".

Definition no_kwargs : Kwargs (gmap string string) :=
  {| kw_headers := HeadersAbsent; kw_other := ∅ |}.

Definition none_kwargs : Kwargs (gmap string string) :=
  {| kw_headers := HeadersNone; kw_other := {[ "timeout" := "5" ]} |}.

(** Keyword arguments whose [headers] is the object 0 of
    [caller_store], which already holds an [Authorization] entry. *)
Definition dict_kwargs : Kwargs (gmap string string) :=
  {| kw_headers := HeadersDict 0; kw_other := {[ "timeout" := "5" ]} |}.

Definition caller_store : heap :=
  [ {[ "Accept" := "application/json"; "Authorization" := "Basic old" ]} ].

Definition wallet_pays (preimage : string) (script : list (Result Response)) : Env :=
  {| script := script; proof := Returned (Some preimage) |}.

Definition wallet_fails (out : Result (option string))
    (script : list (Result Response)) : Env :=
  {| script := script; proof := out |}.

End Mock.

(** ** The wallet of the agent demo (examples/demo_agent.py, lines 32 to 47)

    [MockAgentWallet.pay_invoice] writes four lines to the logger, the
    first with the length of the invoice, and returns the same preimage
    for every invoice.  The state of a session that uses it is the
    state of the transport paired with the lines logged so far. *)
Module DemoAgent.

Inductive wallet_log : Type :=
| WalletReceived (chars : nat)
| WalletDeciding
| WalletSigning
| WalletSent.

Definition fake_preimage : string := Py.repeat "a1b2c3d4e5f67890" 4.

Definition pay_invoice_lines (invoice : string) : list wallet_log :=
  [WalletReceived (String.length invoice); WalletDeciding; WalletSigning; WalletSent].

#[export] Instance MockAgentWallet {T : Type} : LightningWallet (T * list wallet_log) :=
  fun invoice env =>
    (Returned (Some fake_preimage), (env.1, (env.2 ++ pay_invoice_lines invoice)%list)).

(** A transport for runs with this wallet: it hands out a prepared
    list of outcomes, as [Mock.transport] does. *)
Definition scripted_transport (c : Call (list string) (gmap string string))
    (h : heap) (env : list (Result Mock.Response) * list wallet_log)
    : Result Mock.Response * (list (Result Mock.Response) * list wallet_log) :=
  match env.1 with
  | [] => (Raised (RequestException "connection refused"), env)
  | out :: rest => (out, (rest, env.2))
  end.

Definition call (method url : string) (args : list string)
    (kwargs : Kwargs (gmap string string)) (h : heap)
    (env : list (Result Mock.Response) * list wallet_log) :=
  call_request (wallet := MockAgentWallet) Mock.status_code Mock.headers_get
    scripted_transport method url args kwargs h env.

End DemoAgent.

(** * Theorems *)

Import Spec.

(** ** Strings *)

Lemma str_app_cons a s t : String a s +:+ t = String a (s +:+ t).
Proof. reflexivity. Qed.

Lemma str_app_nil_l s : "" +:+ s = s.
Proof. reflexivity. Qed.

Lemma str_app_nil_r s : s +:+ "" = s.
Proof. induction s as [|a s IH]; [reflexivity|]. rewrite str_app_cons, IH. reflexivity. Qed.

Lemma str_app_assoc s t u : (s +:+ t) +:+ u = s +:+ t +:+ u.
Proof.
  induction s as [|a s IH]; [reflexivity|]. rewrite !str_app_cons, IH. reflexivity.
Qed.

Lemma str_app_length s t : String.length (s +:+ t) = String.length s + String.length t.
Proof.
  induction s as [|a s IH]; [reflexivity|]. rewrite str_app_cons. simpl. rewrite IH. reflexivity.
Qed.

Lemma quote_free_app s t : quote_free (s +:+ t) = quote_free s && quote_free t.
Proof.
  induction s as [|a s IH]; [reflexivity|].
  rewrite str_app_cons. simpl. rewrite IH, andb_assoc. reflexivity.
Qed.

Lemma strip_prefix_spec p s r : Py.strip_prefix p s = Some r <-> s = p +:+ r.
Proof.
  revert s. induction p as [|a p IH]; intros s.
  - destruct s; simpl; rewrite str_app_nil_l; split; congruence.
  - destruct s as [|b s]; rewrite str_app_cons; simpl.
    + split; discriminate.
    + destruct (Ascii.eqb_spec a b) as [->|Hne].
      * rewrite IH. split; [intros ->; reflexivity | intros [= ->]; reflexivity].
      * split; [discriminate | intros [= Hb _]; congruence].
Qed.

Lemma strip_prefix_app p r : Py.strip_prefix p (p +:+ r) = Some r.
Proof. apply strip_prefix_spec. reflexivity. Qed.

Lemma contains_spec p s : Py.contains p s = true <-> occurs p s.
Proof.
  induction s as [|a s IH].
  - simpl. destruct (Py.strip_prefix p "") as [r|] eqn:Hp.
    + apply strip_prefix_spec in Hp. split; [|reflexivity].
      intros _. exists "", r. exact Hp.
    + split; [discriminate|]. intros (pre & post & Heq).
      destruct pre; [|discriminate Heq]. rewrite str_app_nil_l in Heq.
      apply strip_prefix_spec in Heq. congruence.
  - simpl. destruct (Py.strip_prefix p (String a s)) as [r|] eqn:Hp.
    + apply strip_prefix_spec in Hp. split; [|reflexivity].
      intros _. exists "", r. exact Hp.
    + rewrite IH. split.
      * intros (pre & post & ->). exists (String a pre), post. reflexivity.
      * intros (pre & post & Heq). destruct pre as [|b pre].
        -- rewrite str_app_nil_l in Heq.
           apply strip_prefix_spec in Heq. congruence.
        -- rewrite str_app_cons in Heq. injection Heq as _ ->. exists pre, post. reflexivity.
Qed.

Lemma span_nonquote_spec s v r :
  Re.span_nonquote s = (v, r) ->
  s = v +:+ r /\ quote_free v = true /\ (r = "" \/ exists r', r = String dq r').
Proof.
  revert v r. induction s as [|c s IH]; intros v r; simpl.
  - intros [= <- <-]. auto.
  - destruct (Ascii.eqb_spec c dq) as [->|Hne].
    + intros [= <- <-]. rewrite str_app_nil_l. eauto.
    + destruct (Re.span_nonquote s) as [v' r'] eqn:Hs. intros [= <- <-].
      destruct (IH _ _ eq_refl) as (-> & Hq & Hr).
      rewrite str_app_cons. simpl. rewrite Hq.
      destruct (Ascii.eqb_spec c dq); [contradiction|]. auto.
Qed.

Lemma span_nonquote_app v r :
  quote_free v = true -> Re.span_nonquote (v +:+ String dq r) = (v, String dq r).
Proof.
  induction v as [|c v IH]; intros Hq.
  - rewrite str_app_nil_l. reflexivity.
  - rewrite str_app_cons. simpl in *. apply andb_prop in Hq as [Hc Hv].
    destruct (Ascii.eqb c dq); [discriminate|]. rewrite (IH Hv). reflexivity.
Qed.

Lemma quoted_app v post : quoted v +:+ post = String dq (v +:+ String dq post).
Proof. unfold quoted. rewrite str_app_cons, str_app_assoc. reflexivity. Qed.

Lemma match_here_spec key s v : Re.match_here key s = Some v <-> matches_at key v s.
Proof.
  unfold Re.match_here, matches_at. split.
  - destruct (Py.strip_prefix _ s) as [rest|] eqn:Hp; [|discriminate].
    apply strip_prefix_spec in Hp.
    destruct (Re.span_nonquote rest) as [v' after] eqn:Hs.
    apply span_nonquote_spec in Hs as (-> & Hq & Hr).
    destruct v' as [|c v']; [discriminate|].
    destruct Hr as [-> | [r' ->]]; [discriminate|].
    simpl. intros [= <-].
    split; [discriminate|]. split; [exact Hq|].
    exists r'. rewrite Hp, quoted_app, !str_app_assoc. reflexivity.
  - intros (Hne & Hq & post & ->).
    rewrite quoted_app.
    replace (key +:+ "=" +:+ String dq (v +:+ String dq post))
      with ((key +:+ "=" +:+ String dq "") +:+ v +:+ String dq post)
      by (rewrite !str_app_assoc; reflexivity).
    rewrite strip_prefix_app, (span_nonquote_app _ _ Hq).
    destruct v; [congruence|]. reflexivity.
Qed.

Lemma search_sound key s v :
  Re.search key s = Some v -> exists pre rest, s = pre +:+ rest /\ matches_at key v rest.
Proof.
  induction s as [|a s IH]; simpl.
  - destruct (Re.match_here key "") as [v'|] eqn:Hm; [|discriminate].
    intros [= ->]. exists "", "". split; [reflexivity|]. apply match_here_spec, Hm.
  - destruct (Re.match_here key (String a s)) as [v'|] eqn:Hm.
    + intros [= ->]. exists "", (String a s). split; [reflexivity|].
      apply match_here_spec, Hm.
    + intros Hs. destruct (IH Hs) as (pre & rest & -> & Hr).
      exists (String a pre), rest. split; [reflexivity | exact Hr].
Qed.

Lemma search_complete key pre rest v :
  matches_at key v rest -> is_Some (Re.search key (pre +:+ rest)).
Proof.
  intros Hm. induction pre as [|a pre IH].
  - rewrite str_app_nil_l. apply match_here_spec in Hm.
    destruct rest; simpl; rewrite Hm; eauto.
  - rewrite str_app_cons. simpl.
    destruct (Re.match_here key (String a (pre +:+ rest))); [eauto | exact IH].
Qed.

Lemma search_here key s v : Re.match_here key s = Some v -> Re.search key s = Some v.
Proof. intros Hm. destruct s; simpl; rewrite Hm; reflexivity. Qed.

Lemma search_none key s :
  Re.search key s = None <->
  ~ exists pre rest v, s = pre +:+ rest /\ matches_at key v rest.
Proof.
  split.
  - intros Hn (pre & rest & v & -> & Hm).
    destruct (search_complete key pre rest v Hm) as [v' Hv]. congruence.
  - intros Hn. destruct (Re.search key s) as [v|] eqn:Hs; [|reflexivity].
    destruct (search_sound _ _ _ Hs) as (pre & rest & Heq & Hm).
    exfalso. apply Hn. eauto.
Qed.

Lemma quote_free_head v : v <> "" -> quote_free v = true -> forall r, v <> String dq r.
Proof.
  intros Hne Hq r ->. simpl in Hq. discriminate Hq.
Qed.

Lemma malformed_no_match key a : malformed key a -> Re.search key a = None.
Proof.
  intros Hbad. apply search_none. intros (pre & rest & v & -> & Hne & Hq & post & ->).
  rewrite quoted_app in Hbad.
  destruct Hbad as [Habs | [[_ Hunq] | [_ Hemp]]].
  - apply Habs. exists pre, (String dq (v +:+ String dq post)).
    rewrite !str_app_assoc. reflexivity.
  - apply Hunq. exists pre, (v +:+ String dq post).
    rewrite !str_app_assoc. reflexivity.
  - destruct (Hemp pre (v +:+ String dq post)) as [post' Hp].
    { reflexivity. }
    destruct v as [|c v]; [congruence|].
    rewrite str_app_cons in Hp. injection Hp as -> _. discriminate Hq.
Qed.

Lemma lacks_scheme_parse a : lacks_scheme a -> parse_challenge a = inl LogNoScheme.
Proof.
  intros [H1 H2]. unfold parse_challenge.
  destruct (Py.contains "L402" a) eqn:E1; [apply contains_spec in E1; contradiction|].
  destruct (Py.contains "LSAT" a) eqn:E2; [apply contains_spec in E2; contradiction|].
  reflexivity.
Qed.

Lemma parse_challenge_search a :
  Re.search "macaroon" a = None \/ Re.search "invoice" a = None ->
  exists line, parse_challenge a = inl line.
Proof.
  intros Hs. unfold parse_challenge.
  destruct (negb _ && negb _); [eauto|].
  destruct Hs as [-> | Hs]; [eauto|]. rewrite Hs.
  destruct (Re.search "macaroon" a); eauto.
Qed.

Lemma str_app_eq_app s1 s2 t1 t2 :
  s1 +:+ s2 = t1 +:+ t2 ->
  exists u, (s1 = t1 +:+ u /\ t2 = u +:+ s2) \/ (t1 = s1 +:+ u /\ s2 = u +:+ t2).
Proof.
  revert t1. induction s1 as [|a s1 IH]; intros t1 Heq.
  - exists t1. right. split; [reflexivity | exact Heq].
  - destruct t1 as [|b t1].
    + exists (String a s1). left. split; [reflexivity|]. symmetry. exact Heq.
    + rewrite !str_app_cons in Heq. injection Heq as -> Heq.
      destruct (IH _ Heq) as [u [[-> ->] | [-> ->]]]; exists u; [left | right];
        split; reflexivity.
Qed.

Lemma first_quote_unique a b r1 r2 :
  quote_free a = true -> quote_free b = true ->
  a +:+ String dq r1 = b +:+ String dq r2 -> a = b /\ r1 = r2.
Proof.
  revert b. induction a as [|c a IH]; intros b Ha Hb Heq.
  - destruct b as [|d b].
    + rewrite !str_app_nil_l in Heq. injection Heq as ->. auto.
    + rewrite str_app_nil_l, str_app_cons in Heq. injection Heq as <- _. discriminate Hb.
  - destruct b as [|d b].
    + rewrite str_app_nil_l, str_app_cons in Heq. injection Heq as -> _. discriminate Ha.
    + rewrite !str_app_cons in Heq. injection Heq as -> Heq.
      simpl in Ha, Hb. apply andb_prop in Ha as [_ Ha]. apply andb_prop in Hb as [_ Hb].
      destruct (IH _ Ha Hb Heq) as [-> ->]. auto.
Qed.

Lemma quote_free_key key : quote_free key = true -> quote_free (key +:+ "=") = true.
Proof. intros Hk. rewrite quote_free_app, Hk. reflexivity. Qed.

(** A match that starts in a quote-free segment closed by a quote uses
    that quote as its opening quote. *)
Lemma match_here_segment key x rest v :
  quote_free key = true -> quote_free x = true ->
  Re.match_here key (x +:+ String dq rest) = Some v ->
  x = key +:+ "=" /\ exists post, rest = v +:+ String dq post.
Proof.
  intros Hk Hx Hm. apply match_here_spec in Hm as (_ & _ & post & Heq).
  rewrite quoted_app, <- str_app_assoc in Heq.
  apply first_quote_unique in Heq as [-> ->]; [eauto | exact Hx |].
  apply quote_free_key, Hk.
Qed.

Lemma search_skip key x rest :
  quote_free key = true -> quote_free x = true ->
  ~ suffix_of (key +:+ "=") x ->
  Re.search key (x +:+ String dq rest) = Re.search key rest.
Proof.
  intros Hk. induction x as [|c x IH]; intros Hx Hend.
  - rewrite str_app_nil_l. simpl.
    destruct (Re.match_here key (String dq rest)) as [v|] eqn:Hm; [|reflexivity].
    exfalso. apply Hend.
    apply (match_here_segment key "" rest v Hk eq_refl) in Hm as [<- _].
    exists "". reflexivity.
  - rewrite str_app_cons. simpl.
    destruct (Re.match_here key (String c (x +:+ String dq rest))) as [v|] eqn:Hm.
    + exfalso. apply Hend.
      apply (match_here_segment key (String c x) rest v Hk Hx) in Hm as [-> _].
      exists "". reflexivity.
    + simpl in Hx. apply andb_prop in Hx as [_ Hx]. apply IH; [exact Hx|].
      intros [pre ->]. apply Hend. exists (String c pre). reflexivity.
Qed.

Lemma search_hit key x v rest :
  quote_free key = true -> quote_free x = true ->
  suffix_of (key +:+ "=") x ->
  v <> "" -> quote_free v = true ->
  Re.search key (x +:+ String dq (v +:+ String dq rest)) = Some v.
Proof.
  intros Hk Hx [pre ->] Hne Hv. induction pre as [|c pre IH].
  - rewrite str_app_nil_l. apply search_here, match_here_spec.
    split; [exact Hne|]. split; [exact Hv|]. exists rest.
    rewrite quoted_app, !str_app_assoc. reflexivity.
  - rewrite !str_app_cons. simpl.
    destruct (Re.match_here key _) as [v'|] eqn:Hm.
    + change (String c ((pre +:+ key +:+ "=") +:+ String dq (v +:+ String dq rest)))
        with (String c (pre +:+ key +:+ "=") +:+ String dq (v +:+ String dq rest)) in Hm.
      apply match_here_spec in Hm as Hm'. destruct Hm' as (_ & Hv' & _).
      apply match_here_segment in Hm as [_ [post Hpost]]; [|exact Hk|exact Hx].
      apply first_quote_unique in Hpost as [-> _]; [reflexivity | exact Hv | exact Hv'].
    + apply IH. rewrite str_app_cons in Hx. simpl in Hx.
      apply andb_prop in Hx as [_ Hx]. exact Hx.
Qed.

Lemma space_free_app s t : space_free (s +:+ t) = space_free s && space_free t.
Proof.
  induction s as [|a s IH]; [reflexivity|].
  rewrite str_app_cons. simpl. rewrite IH, andb_assoc. reflexivity.
Qed.

Lemma str_app_eq_single u c : String c "" = u +:+ String c "" -> u = "".
Proof.
  destruct u as [|a u]; [reflexivity|]. rewrite str_app_cons. intros [= _ Hu].
  destruct u; discriminate Hu.
Qed.

Lemma suffix_of_snoc p s c :
  suffix_of (p +:+ String c "") (s +:+ String c "") -> suffix_of p s.
Proof.
  intros [pre Heq]. rewrite <- str_app_assoc in Heq.
  apply str_app_eq_app in Heq as [u [[Hs Hu] | [Hs Hu]]];
    apply str_app_eq_single in Hu as ->; rewrite str_app_nil_r in Hs; exists pre; congruence.
Qed.

Lemma suffix_of_after_space key lead name :
  space_free key = true ->
  suffix_of key (lead +:+ " " +:+ name) -> suffix_of key name.
Proof.
  intros Hk [pre Heq]. rewrite <- str_app_assoc in Heq.
  apply str_app_eq_app in Heq as [u [[Hl ->] | [_ ->]]]; [|exists u; reflexivity].
  destruct u as [|c u]; [exists ""; reflexivity|]. exfalso.
  rewrite space_free_app in Hk. apply andb_prop in Hk as [Hu _].
  apply str_app_eq_app in Hl as [w [[_ Hw] | [_ Hw]]].
  - rewrite Hw, space_free_app in Hu. apply andb_prop in Hu as [_ Hu]. discriminate Hu.
  - destruct w as [|d w].
    + rewrite str_app_nil_l in Hw. rewrite <- Hw in Hu. discriminate Hu.
    + rewrite str_app_cons in Hw. injection Hw as _ Hw. destruct w; discriminate Hw.
Qed.

Lemma concat_cons sep x l :
  String.concat sep (x :: l)
  = x +:+ match l with [] => "" | _ :: _ => sep +:+ String.concat sep l end.
Proof. destruct l; simpl; [rewrite str_app_nil_r|]; reflexivity. Qed.

Lemma render_shape lead p tail :
  lead +:+ " " +:+ render_param p +:+ tail
  = (lead +:+ " " +:+ p.1 +:+ "=") +:+ String dq (p.2 +:+ String dq tail).
Proof.
  unfold render_param. rewrite !str_app_assoc, quoted_app. reflexivity.
Qed.

Lemma ends_with_spec p s : ends_with p s = true <-> suffix_of p s.
Proof.
  induction s as [|a s IH]; simpl.
  - rewrite orb_false_r, String.eqb_eq. split.
    + intros ->. exists "". reflexivity.
    + intros [pre Heq]. destruct pre; [exact (eq_sym Heq) | discriminate Heq].
  - rewrite orb_true_iff, String.eqb_eq, IH. split.
    + intros [-> | [pre ->]]; [exists "" | exists (String a pre)]; reflexivity.
    + intros [[|b pre] Heq].
      * left. exact (eq_sym Heq).
      * right. rewrite str_app_cons in Heq. injection Heq as _ ->. exists pre. reflexivity.
Qed.

Lemma admissible_inv key v p :
  admissible key v p = true ->
  quote_free p.1 = true /\ quote_free p.2 = true /\
  (p = (key, v) \/ ~ suffix_of key p.1 /\ ~ suffix_of (key +:+ "=") p.2).
Proof.
  unfold admissible. intros H.
  apply andb_prop in H as [H Hor]. apply andb_prop in H as [H1 H2].
  split; [exact H1|]. split; [exact H2|].
  apply orb_prop in Hor as [Heq | Hno].
  - left. apply andb_prop in Heq as [Ea Eb].
    apply String.eqb_eq in Ea, Eb. destruct p; simpl in *; congruence.
  - right. apply andb_prop in Hno as [Na Nb].
    apply negb_true_iff in Na, Nb.
    split; intros Hs; apply ends_with_spec in Hs; congruence.
Qed.

(** The search for [key] in a rendered list of admissible pairs finds
    the value of the pair [(key, v)], wherever it stands. *)
Lemma search_params key v ps lead :
  quote_free key = true -> space_free key = true -> v <> "" ->
  quote_free lead = true ->
  In (key, v) ps -> forallb (admissible key v) ps = true ->
  Re.search key (lead +:+ " " +:+ String.concat ", " (List.map render_param ps)) = Some v.
Proof.
  intros Hk Hsp Hv. revert lead.
  induction ps as [|p ps IH]; intros lead Hlead Hin Hall; [destruct Hin|].
  cbn [forallb] in Hall. apply andb_prop in Hall as [Hp Hall].
  apply admissible_inv in Hp as (Hp1 & Hp2 & Hcase).
  cbn [List.map]. rewrite concat_cons, render_shape.
  assert (Hx : quote_free (lead +:+ " " +:+ p.1 +:+ "=") = true).
  { rewrite !quote_free_app, Hlead, Hp1. reflexivity. }
  destruct Hcase as [-> | [Hname Hval]].
  - apply search_hit; try assumption. exists (lead +:+ " "). cbn [fst].
    rewrite !str_app_assoc. reflexivity.
  - rewrite search_skip; [|exact Hk|exact Hx|].
    2:{ intros Hend. apply Hname.
        apply (suffix_of_after_space key lead); [exact Hsp|].
        apply (suffix_of_snoc _ _ "="%char).
        rewrite !str_app_assoc. exact Hend. }
    rewrite search_skip; [|exact Hk|exact Hp2|exact Hval].
    destruct Hin as [Heq | Hin].
    { exfalso. apply Hname. subst p. exists "". reflexivity. }
    destruct ps as [|p' ps]; [destruct Hin|].
    change (", " +:+ String.concat ", " (List.map render_param (p' :: ps)))
      with ("," +:+ " " +:+ String.concat ", " (List.map render_param (p' :: ps))).
    apply IH; [reflexivity | exact Hin | exact Hall].
Qed.

Lemma contains_prefix p rest : Py.contains p (p +:+ rest) = true.
Proof. apply contains_spec. exists "", rest. reflexivity. Qed.

Lemma parse_challenge_params scheme ps macaroon invoice :
  scheme_word scheme ->
  macaroon <> "" -> invoice <> "" ->
  In ("macaroon", macaroon) ps -> In ("invoice", invoice) ps ->
  forallb (admissible "macaroon" macaroon) ps = true ->
  forallb (admissible "invoice" invoice) ps = true ->
  parse_challenge (render_challenge scheme ps) = inr (macaroon, invoice).
Proof.
  intros Hs Hm Hi Him Hii Ham Hai. unfold parse_challenge, render_challenge.
  rewrite (search_params "macaroon" macaroon), (search_params "invoice" invoice);
    try assumption; try reflexivity; try (destruct Hs as [-> | ->]; reflexivity).
  destruct Hs as [-> | ->].
  - rewrite contains_prefix. reflexivity.
  - rewrite (contains_prefix "LSAT"), andb_false_r. reflexivity.
Qed.

(** ** The object store *)

Lemma store_alter_last (f : dict -> dict) (l : heap) (d : dict) :
  alter f (length l) (l ++ [d])%list = (l ++ [f d])%list.
Proof.
  rewrite alter_app_r_alt by lia. rewrite Nat.sub_diag. reflexivity.
Qed.

Lemma store_lookup_last (l : heap) (d : dict) : (l ++ [d])%list !!! length l = d.
Proof. apply list_lookup_total_middle. reflexivity. Qed.

Lemma store_lookup_grown (l : heap) (i : loc) : (l ++ [∅])%list !!! i = l !!! i.
Proof.
  destruct (decide (i < length l)) as [Hlt|Hge].
  - apply lookup_total_app_l. exact Hlt.
  - rewrite !list_lookup_total_alt.
    rewrite (lookup_ge_None_2 l i) by lia.
    destruct (decide (i = length l)) as [->|Hne].
    + rewrite list_lookup_middle by reflexivity. reflexivity.
    + rewrite lookup_ge_None_2; [reflexivity|]. rewrite length_app. simpl. lia.
Qed.

(** ** The session *)

Section SessionFacts.

Context {Args Options Response Env : Type}.
Variable status_code : Response -> Z.
Variable headers_get : Response -> string -> option string.
Variable transport : Call Args Options -> heap -> Env -> Result Response * Env.
Context {wallet : LightningWallet Env}.

Local Abbreviation session_call :=
  (call_request status_code headers_get transport).
Local Abbreviation handle :=
  (_handle_payment_flow headers_get transport).
Local Abbreviation path :=
  (path status_code headers_get transport).

Variables (method url : string) (args : Args) (kwargs : Kwargs Options).
Variables (h : heap) (env : Env).

Local Abbreviation c0 := (first_call method url args kwargs).
Local Abbreviation ev0 := (first_send method url args kwargs h).

Lemma request_first_raises e env1 :
  transport c0 h env = (Raised e, env1) ->
  session_call method url args kwargs h env
  = (Raised e, {| w_heap := h; w_env := env1; w_trace := [ev0 (Raised e)] |}).
Proof.
  intros Ht. unfold call_request, request, bind, try_except, super_request.
  simpl. fold c0. rewrite Ht. destruct e; reflexivity.
Qed.

Lemma request_first_returns r env1 :
  transport c0 h env = (Returned r, env1) ->
  session_call method url args kwargs h env
  = if (status_code r =? 402)%Z
    then handle r method url args kwargs
           {| w_heap := h; w_env := env1; w_trace := [ev0 (Returned r)] |}
    else (Returned r,
          {| w_heap := h; w_env := env1; w_trace := [ev0 (Returned r)] |}).
Proof.
  intros Ht. unfold call_request, request, bind, try_except, super_request.
  simpl. fold c0. rewrite Ht. destruct (status_code r =? 402)%Z; reflexivity.
Qed.

Variable t : list (event Args Options Response).

Lemma handle_no_header r env1 :
  headers_get r "WWW-Authenticate" = None \/
  headers_get r "WWW-Authenticate" = Some "" ->
  handle r method url args kwargs {| w_heap := h; w_env := env1; w_trace := t |}
  = (Returned r,
     {| w_heap := h; w_env := env1; w_trace := t ++ [EvPrint LogNoHeader] |}).
Proof.
  intros [Hg | Hg]; unfold _handle_payment_flow; rewrite Hg; reflexivity.
Qed.

Lemma handle_parse_error r env1 a line :
  headers_get r "WWW-Authenticate" = Some a ->
  a <> "" ->
  parse_challenge a = inl line ->
  handle r method url args kwargs {| w_heap := h; w_env := env1; w_trace := t |}
  = (Returned r,
     {| w_heap := h; w_env := env1; w_trace := t ++ [EvPrint line] |}).
Proof.
  intros Hg Ha Hp. unfold _handle_payment_flow. rewrite Hg.
  destruct a as [|c a']; [done|]. rewrite Hp. reflexivity.
Qed.

Lemma handle_payment_failed r env1 a macaroon invoice out env2 e :
  headers_get r "WWW-Authenticate" = Some a ->
  parse_challenge a = inr (macaroon, invoice) ->
  wallet_pay_invoice invoice env1 = (out, env2) ->
  payment_error out = Some e ->
  handle r method url args kwargs {| w_heap := h; w_env := env1; w_trace := t |}
  = (Returned r,
     {| w_heap := h; w_env := env2;
        w_trace := t ++ [EvPrint LogDetected;
                         EvPrint (LogInvoice (Py.take 20 invoice) (Py.last 10 invoice));
                         EvPay invoice out;
                         EvPrint (LogPaymentFailed e)] |}).
Proof.
  intros Hg Hp Hw He. unfold _handle_payment_flow. rewrite Hg.
  destruct a as [|c a']; [discriminate Hp|]. rewrite Hp.
  unfold bind, try_except, pay_invoice, print, emit, ret, raise.
  cbn [w_heap w_env w_trace]. rewrite Hw.
  destruct out as [[[|c1 p]|]|e1]; cbn in He |- *; inversion He; subst;
    rewrite <- !app_assoc; reflexivity.
Qed.

Lemma handle_retry r env1 a macaroon invoice preimage env2 h2 l2 out2 env3 :
  headers_get r "WWW-Authenticate" = Some a ->
  parse_challenge a = inr (macaroon, invoice) ->
  wallet_pay_invoice invoice env1 = (Returned (Some preimage), env2) ->
  preimage <> "" ->
  retry_store h kwargs (l402_token macaroon preimage) = (h2, l2) ->
  transport (retry_call method url args kwargs l2) h2 env2 = (out2, env3) ->
  handle r method url args kwargs {| w_heap := h; w_env := env1; w_trace := t |}
  = (out2,
     {| w_heap := h2; w_env := env3;
        w_trace := t ++ [EvPrint LogDetected;
                         EvPrint (LogInvoice (Py.take 20 invoice) (Py.last 10 invoice));
                         EvPay invoice (Returned (Some preimage));
                         EvPrint (LogPaymentConfirmed (Py.take 10 preimage));
                         EvPrint LogRetrying;
                         EvSend (retry_call method url args kwargs l2) (h2 !! l2) out2] |}).
Proof.
  intros Hg Hp Hw Hne Hs Ht.
  unfold _handle_payment_flow. rewrite Hg.
  destruct a as [|ca a']; [discriminate Hp|]. rewrite Hp.
  destruct preimage as [|c1 p]; [done|].
  unfold retry_store, caller_headers in Hs. unfold retry_call in Ht |- *.
  unfold bind, try_except, pay_invoice, print, emit, ret, raise,
    dict_copy, dict_setitem, alloc, super_request, wire_headers.
  cbn [w_heap w_env w_trace kw_headers kw_other].
  rewrite Hw. cbn [w_heap w_env w_trace].
  destruct (kw_headers kwargs) as [| |l] eqn:Hk;
    cbn [w_heap w_env w_trace kw_headers kw_other];
    inversion Hs; subst h2 l2; clear Hs.
  - rewrite store_lookup_last, store_alter_last, length_app, <- app_assoc.
    cbn [length app]. rewrite Ht. rewrite <- !app_assoc. reflexivity.
  - rewrite store_lookup_last, store_alter_last, !length_app, <- !app_assoc.
    cbn [length app]. rewrite <- Nat.add_assoc. cbn [Nat.add].
    rewrite Ht. rewrite <- !app_assoc. reflexivity.
  - rewrite store_lookup_grown, store_alter_last, length_app, <- app_assoc.
    cbn [length app]. rewrite Ht. rewrite <- !app_assoc. reflexivity.
Qed.

(** The header preparation of lines 88 to 95: the token lands in a new
    object that holds the caller's entries, and no object of the
    caller changes. *)
Lemma retry_store_spec token h2 l2 :
  retry_store h kwargs token = (h2, l2) ->
  h2 !! l2 = Some (<[ "Authorization" := token ]> (caller_headers h kwargs)) /\
  length h <= l2 /\
  (forall l d, h !! l = Some d -> h2 !! l = Some d).
Proof.
  unfold retry_store. intros Hs.
  assert (Hold : forall junk l d, h !! l = Some d -> (h ++ junk)%list !! l = Some d).
  { intros junk l d Hl. rewrite lookup_app_l; [exact Hl|].
    apply lookup_lt_Some in Hl. exact Hl. }
  destruct (kw_headers kwargs); inversion Hs; subst h2 l2; clear Hs;
    (split; [|split; [lia | apply Hold]]).
  - rewrite lookup_app_r by lia. replace (length h + 1 - length h) with 1 by lia.
    reflexivity.
  - rewrite lookup_app_r by lia. replace (length h + 2 - length h) with 2 by lia.
    reflexivity.
  - rewrite lookup_app_r by lia. replace (length h + 1 - length h) with 1 by lia.
    reflexivity.
Qed.

End SessionFacts.

(** ** The paths of [request] *)

Section PathFacts.

Context {Args Options Response Env : Type}.
Variable status_code : Response -> Z.
Variable headers_get : Response -> string -> option string.
Variable transport : Call Args Options -> heap -> Env -> Result Response * Env.
Context {wallet : LightningWallet Env}.

Local Abbreviation session_call :=
  (call_request status_code headers_get transport).
Local Abbreviation path :=
  (path status_code headers_get transport).

Variables (method url : string) (args : Args) (kwargs : Kwargs Options).
Variables (h : heap) (env : Env).

Local Abbreviation c0 := (first_call method url args kwargs).
Local Abbreviation ev0 := (first_send method url args kwargs h).

(** Every path is the run of the function. *)
Lemma path_request res w :
  path method url args kwargs h env res w ->
  session_call method url args kwargs h env = (res, w).
Proof.
  intros Hp. destruct Hp as
    [e env1 Ht | r env1 Ht Hst | r env1 Ht Hst Hg | r env1 a line Ht Hst Hg Ha Hp
    | r env1 a m i out env2 e Ht Hst Hg Hp Hw He
    | r env1 a m i p env2 h2 l2 out2 env3 Ht Hst Hg Hp Hw Hne Hs Ht2].
  - apply request_first_raises, Ht.
  - erewrite request_first_returns by exact Ht.
    apply Z.eqb_neq in Hst. rewrite Hst. reflexivity.
  - erewrite request_first_returns by exact Ht. rewrite Hst, Z.eqb_refl.
    rewrite handle_no_header by exact Hg. reflexivity.
  - erewrite request_first_returns by exact Ht. rewrite Hst, Z.eqb_refl.
    erewrite handle_parse_error by eassumption. reflexivity.
  - erewrite request_first_returns by exact Ht. rewrite Hst, Z.eqb_refl.
    erewrite handle_payment_failed by eassumption. reflexivity.
  - erewrite request_first_returns by exact Ht. rewrite Hst, Z.eqb_refl.
    erewrite handle_retry by eassumption. reflexivity.
Qed.

(** The run of the function is one of the paths: [request] is total. *)
Lemma request_path :
  exists res w,
    session_call method url args kwargs h env = (res, w) /\
    path method url args kwargs h env res w.
Proof.
  assert (Hex : exists res w, path method url args kwargs h env res w).
  { destruct (transport c0 h env) as [[r|e] env1] eqn:Ht;
      [|eexists _, _; eapply PathTransportError; exact Ht].
    destruct (decide (status_code r = 402%Z)) as [Hst|Hst];
      [|eexists _, _; eapply PathPassThrough; eassumption].
    destruct (headers_get r "WWW-Authenticate") as [a|] eqn:Hg;
      [|eexists _, _; eapply PathNoHeader; eauto].
    destruct (decide (a = "")) as [->|Ha];
      [eexists _, _; eapply PathNoHeader; eauto|].
    destruct (parse_challenge a) as [line|[m i]] eqn:Hp;
      [eexists _, _; eapply PathParseError; eassumption|].
    destruct (wallet_pay_invoice i env1) as [out env2] eqn:Hw.
    destruct (payment_error out) as [e|] eqn:He;
      [eexists _, _; eapply PathPaymentFailed; eassumption|].
    destruct out as [[[|c p]|]|e]; try discriminate He.
    destruct (retry_store h kwargs (l402_token m (String c p))) as [h2 l2] eqn:Hs.
    destruct (transport (retry_call method url args kwargs l2) h2 env2)
      as [out2 env3] eqn:Ht2.
    eexists _, _. eapply PathRetry; try eassumption. discriminate. }
  destruct Hex as (res & w & Hp). exists res, w.
  split; [apply path_request, Hp | exact Hp].
Qed.

(** On every path the objects of the caller's store are left as they
    were. *)
Lemma request_keeps_caller_store l d :
  h !! l = Some d ->
  w_heap (session_call method url args kwargs h env).2 !! l = Some d.
Proof.
  intros Hl. destruct request_path as (res & w & -> & Hp). cbn [snd].
  destruct Hp; cbn [w_heap]; try exact Hl.
  match goal with Hs : retry_store _ _ _ = _ |- _ =>
    apply retry_store_spec in Hs as (_ & _ & Hold) end.
  apply Hold, Hl.
Qed.

End PathFacts.

(** ** Properties of one call of [request] *)

(** Evaluate the observations on an explicit trace, leaving the slices
    of the log lines alone. *)
Ltac trace_facts :=
  cbn [fst snd w_trace w_heap w_env pays sends List.filter is_send is_pay
       first_send length].

Section RequestProperties.

Context {Args Options Response Env : Type}.
Variable status_code : Response -> Z.
Variable headers_get : Response -> string -> option string.
Variable transport : Call Args Options -> heap -> Env -> Result Response * Env.
Context {wallet : LightningWallet Env}.

Local Abbreviation session_call :=
  (call_request status_code headers_get transport).
Local Abbreviation path :=
  (path status_code headers_get transport).

Variables (method url : string) (args : Args) (kwargs : Kwargs Options).
Variables (h : heap) (env : Env).

Local Abbreviation c0 := (first_call method url args kwargs).
Local Abbreviation ev0 := (first_send method url args kwargs h).
Local Abbreviation run := (session_call method url args kwargs h env).

(** C1. Across one call of [request] the wallet is invoked at most once
    and the transport at most twice; when there is a second send, its
    response, whatever its status (402 included), is the result, and
    nothing happens after it. *)
Theorem request_pays_once_sends_twice :
  length (pays (w_trace run.2)) <= 1 /\
  length (sends (w_trace run.2)) <= 2 /\
  forall s1 c2 hdrs2 r2,
    sends (w_trace run.2) = [s1; EvSend c2 hdrs2 (Returned r2)] ->
    run.1 = Returned r2 /\
    exists before, w_trace run.2 = (before ++ [EvSend c2 hdrs2 (Returned r2)])%list.
Proof.
  destruct (request_path status_code headers_get transport
              method url args kwargs h env) as (res & w & -> & Hp).
  cbn [fst snd].
  destruct Hp; trace_facts; (split; [lia|]); (split; [lia|]);
    intros s1 c2 hdrs2 r2 Heq; try discriminate Heq.
  injection Heq as _ -> -> ->. split; [reflexivity|].
  eexists [_; _; _; _; _; _]. reflexivity.
Qed.

(** C2. A first response whose status is not 402 is returned as it is:
    the trace holds the one send, so the wallet is not invoked, and the
    store is unchanged. *)
Theorem request_pass_through r env1 :
  transport c0 h env = (Returned r, env1) ->
  status_code r <> 402%Z ->
  run = (Returned r,
         {| w_heap := h; w_env := env1; w_trace := [ev0 (Returned r)] |}).
Proof.
  intros Ht Hst. apply path_request. apply PathPassThrough; assumption.
Qed.

(** C3, as amended. The conditions are read on the text of the header,
    as the code tests them, not on its scheme token and keys.  A 402
    response whose challenge header is absent, has neither L402 nor LSAT
    anywhere in it, or in which, for [macaroon] or for [invoice], the
    text of the key followed by an equals sign occurs nowhere (not even
    as the end of a longer name), is nowhere followed by a quote, or is
    everywhere followed by an empty quoted value, is returned as it is:
    no exception, one send, one log line, no payment. *)
Theorem request_unusable_challenge r env1 :
  transport c0 h env = (Returned r, env1) ->
  status_code r = 402%Z ->
  (headers_get r "WWW-Authenticate" = None \/
   exists a, headers_get r "WWW-Authenticate" = Some a /\
             (lacks_scheme a \/ malformed "macaroon" a \/ malformed "invoice" a)) ->
  exists line,
    run = (Returned r,
           {| w_heap := h; w_env := env1;
              w_trace := [ev0 (Returned r); EvPrint line] |}).
Proof.
  intros Ht Hst [Hg | (a & Hg & Hbad)].
  - exists LogNoHeader. apply path_request. apply PathNoHeader; auto.
  - destruct (decide (a = "")) as [-> | Ha].
    { exists LogNoHeader. apply path_request. apply PathNoHeader; auto. }
    assert (Hp : exists line, parse_challenge a = inl line).
    { destruct Hbad as [Hs | [Hm | Hi]].
      - exists LogNoScheme. apply lacks_scheme_parse, Hs.
      - apply parse_challenge_search. left. apply malformed_no_match, Hm.
      - apply parse_challenge_search. right. apply malformed_no_match, Hi. }
    destruct Hp as [line Hp]. exists line.
    apply path_request. eapply PathParseError; eassumption.
Qed.

(** C4. When the wallet raises, returns [None] or returns the empty
    string, the original 402 response is returned, no exception leaves
    [request], and the first send is the only one. *)
Theorem request_payment_failure r env1 a macaroon invoice out env2 :
  transport c0 h env = (Returned r, env1) ->
  status_code r = 402%Z ->
  headers_get r "WWW-Authenticate" = Some a ->
  parse_challenge a = inr (macaroon, invoice) ->
  wallet_pay_invoice invoice env1 = (out, env2) ->
  ((exists e, out = Raised e) \/ out = Returned None \/ out = Returned (Some "")) ->
  run.1 = Returned r /\
  sends (w_trace run.2) = [ev0 (Returned r)] /\
  pays (w_trace run.2) = [EvPay invoice out] /\
  w_heap run.2 = h.
Proof.
  intros Ht Hst Hg Hp Hw Hout.
  assert (He : exists e, payment_error out = Some e).
  { destruct Hout as [[e ->] | [-> | ->]]; eexists; reflexivity. }
  destruct He as [e He].
  erewrite path_request by (eapply PathPaymentFailed; eassumption).
  trace_facts. auto.
Qed.

(** C5. After a successful payment the retried request carries the
    header [Authorization] with the value [L402 macaroon:preimage],
    whatever the challenge header was (its scheme word included). *)
Theorem retry_authorization_header r env1 a macaroon invoice preimage env2 :
  transport c0 h env = (Returned r, env1) ->
  status_code r = 402%Z ->
  headers_get r "WWW-Authenticate" = Some a ->
  parse_challenge a = inr (macaroon, invoice) ->
  wallet_pay_invoice invoice env1 = (Returned (Some preimage), env2) ->
  preimage <> "" ->
  exists c2 hdrs out2,
    sends (w_trace run.2) = [ev0 (Returned r); EvSend c2 (Some hdrs) out2] /\
    hdrs !! "Authorization" = Some ("L402 " +:+ macaroon +:+ ":" +:+ preimage).
Proof.
  intros Ht Hst Hg Hp Hw Hne.
  destruct (retry_store h kwargs (l402_token macaroon preimage)) as [h2 l2] eqn:Hs.
  destruct (transport (retry_call method url args kwargs l2) h2 env2)
    as [out2 env3] eqn:Ht2.
  erewrite path_request by (eapply PathRetry; eassumption).
  apply retry_store_spec in Hs as (Hl & _ & _).
  eexists _, _, _. trace_facts. rewrite Hl. split; [reflexivity|].
  apply lookup_insert_eq.
Qed.

(** C7. A failure of the first send leaves [request] as that exception,
    after the one send and nothing else; and whenever [request] ends
    with an exception, it is the exception that the transport raised in
    the last event of the trace. *)
Theorem transport_failure_propagates :
  (forall e env1,
     transport c0 h env = (Raised e, env1) ->
     run = (Raised e,
            {| w_heap := h; w_env := env1; w_trace := [ev0 (Raised e)] |})) /\
  (forall e,
     run.1 = Raised e ->
     exists before c hdrs,
       w_trace run.2 = (before ++ [EvSend c hdrs (Raised e)])%list).
Proof.
  split.
  - intros e env1 Ht. apply path_request. apply PathTransportError, Ht.
  - destruct (request_path status_code headers_get transport
                method url args kwargs h env) as (res & w & -> & Hp).
    cbn [fst snd]. intros e He.
    destruct Hp; try discriminate He.
    + injection He as ->. exists [], c0, (wire_headers h kwargs). reflexivity.
    + subst out2. eexists [_; _; _; _; _; _], _, _. reflexivity.
Qed.

(** C8. The retried request has the method, URL, positional arguments
    and other keyword arguments of the original one; its headers are a
    new object holding the caller's entries with [Authorization] set to
    the token; and every object of the caller's store is unchanged. *)
Theorem retry_request_frame r env1 a macaroon invoice preimage env2 :
  transport c0 h env = (Returned r, env1) ->
  status_code r = 402%Z ->
  headers_get r "WWW-Authenticate" = Some a ->
  parse_challenge a = inr (macaroon, invoice) ->
  wallet_pay_invoice invoice env1 = (Returned (Some preimage), env2) ->
  preimage <> "" ->
  exists l2 hdrs out2,
    sends (w_trace run.2)
    = [ev0 (Returned r);
       EvSend {| c_method := method; c_url := url; c_args := args;
                 c_kwargs := {| kw_headers := HeadersDict l2;
                                kw_other := kw_other kwargs |} |}
         (Some hdrs) out2] /\
    hdrs = <[ "Authorization" := l402_token macaroon preimage ]>
             (caller_headers h kwargs) /\
    hdrs !! "Authorization" = Some (l402_token macaroon preimage) /\
    (forall k, k <> "Authorization" -> hdrs !! k = caller_headers h kwargs !! k) /\
    length h <= l2 /\
    (forall l d, h !! l = Some d -> w_heap run.2 !! l = Some d).
Proof.
  intros Ht Hst Hg Hp Hw Hne.
  destruct (retry_store h kwargs (l402_token macaroon preimage)) as [h2 l2] eqn:Hs.
  destruct (transport (retry_call method url args kwargs l2) h2 env2)
    as [out2 env3] eqn:Ht2.
  erewrite path_request by (eapply PathRetry; eassumption).
  apply retry_store_spec in Hs as (Hl & Hfresh & Hold).
  exists l2, (<[ "Authorization" := l402_token macaroon preimage ]>
               (caller_headers h kwargs)), out2.
  trace_facts. rewrite Hl. split; [reflexivity|]. split; [reflexivity|].
  split; [apply lookup_insert_eq|].
  split; [intros k Hk; apply lookup_insert_ne; congruence|].
  split; [exact Hfresh | exact Hold].
Qed.

(** C10. When [headers] was not passed or was [None], a successful
    payment is followed by the retry: it is sent with a new dict that
    holds the [Authorization] entry and nothing else, and [request]
    ends the way that send ends. *)
Theorem retry_without_headers r env1 a macaroon invoice preimage env2 :
  kw_headers kwargs = HeadersAbsent \/ kw_headers kwargs = HeadersNone ->
  transport c0 h env = (Returned r, env1) ->
  status_code r = 402%Z ->
  headers_get r "WWW-Authenticate" = Some a ->
  parse_challenge a = inr (macaroon, invoice) ->
  wallet_pay_invoice invoice env1 = (Returned (Some preimage), env2) ->
  preimage <> "" ->
  exists l2 out2,
    run.1 = out2 /\
    sends (w_trace run.2)
    = [ev0 (Returned r);
       EvSend (retry_call method url args kwargs l2)
         (Some {[ "Authorization" := l402_token macaroon preimage ]}) out2] /\
    length h <= l2.
Proof.
  intros Hk Ht Hst Hg Hp Hw Hne.
  destruct (retry_store h kwargs (l402_token macaroon preimage)) as [h2 l2] eqn:Hs.
  destruct (transport (retry_call method url args kwargs l2) h2 env2)
    as [out2 env3] eqn:Ht2.
  erewrite path_request by (eapply PathRetry; eassumption).
  apply retry_store_spec in Hs as (Hl & Hfresh & _).
  assert (Hc : caller_headers h kwargs = ∅).
  { unfold caller_headers. destruct Hk as [-> | ->]; reflexivity. }
  rewrite Hc, insert_empty in Hl.
  exists l2, out2. trace_facts. rewrite Hl. auto.
Qed.

End RequestProperties.

(** ** Challenge headers in the format of the specification *)

Lemma occurrences_from_spec p s i n :
  In n (occurrences_from i p s) <->
  exists pre post, s = pre +:+ p +:+ post /\ n = i + String.length pre.
Proof.
  revert i. induction s as [|a s IH]; intros i; cbn [occurrences_from];
    rewrite in_app_iff.
  - split.
    + intros [Hin | []]. destruct (Py.strip_prefix p "") as [r|] eqn:Hp; [|destruct Hin].
      destruct Hin as [<- | []]. apply strip_prefix_spec in Hp.
      exists "", r. split; [exact Hp | simpl; lia].
    + intros (pre & post & Heq & ->). left.
      destruct pre; [|discriminate Heq]. rewrite str_app_nil_l in Heq.
      apply strip_prefix_spec in Heq. rewrite Heq. left. simpl. lia.
  - rewrite IH. split.
    + intros [Hin | (pre & post & -> & ->)].
      * destruct (Py.strip_prefix p (String a s)) as [r|] eqn:Hp; [|destruct Hin].
        destruct Hin as [<- | []]. apply strip_prefix_spec in Hp.
        exists "", r. split; [exact Hp | simpl; lia].
      * exists (String a pre), post. split; [reflexivity | simpl; lia].
    + intros ([|b pre] & post & Heq & ->).
      * left. rewrite str_app_nil_l in Heq. apply strip_prefix_spec in Heq.
        rewrite Heq. left. simpl. lia.
      * right. rewrite str_app_cons in Heq. injection Heq as _ ->.
        exists pre, post. split; [reflexivity | simpl; lia].
Qed.

(** [occurrences] lists exactly the positions at which the text occurs. *)
Lemma occurrences_spec p s n :
  In n (occurrences p s) <->
  exists pre post, s = pre +:+ p +:+ post /\ n = String.length pre.
Proof. unfold occurrences. rewrite occurrences_from_spec. reflexivity. Qed.

(** C6, as amended. In a challenge made of a scheme word and pairs
    without quotes in names or values, where the only name ending in
    [macaroon] is [macaroon] with a non-empty value, likewise for
    [invoice], and where no other value ends in [macaroon=] or
    [invoice=], the parser extracts the two values in whatever order the
    pairs stand and whatever other pairs stand among them. *)
Theorem parse_any_order_with_extras scheme ps ps' macaroon invoice :
  scheme_word scheme ->
  macaroon <> "" -> invoice <> "" ->
  In ("macaroon", macaroon) ps -> In ("invoice", invoice) ps ->
  forallb (admissible "macaroon" macaroon) ps = true ->
  forallb (admissible "invoice" invoice) ps = true ->
  Permutation ps ps' ->
  parse_challenge (render_challenge scheme ps) = inr (macaroon, invoice) /\
  parse_challenge (render_challenge scheme ps') = inr (macaroon, invoice).
Proof.
  intros Hs Hm Hi Him Hii Ham Hai Hperm.
  split; [apply parse_challenge_params; assumption|].
  apply parse_challenge_params; try assumption.
  - apply (Permutation_in _ Hperm), Him.
  - apply (Permutation_in _ Hperm), Hii.
  - apply forallb_forall. intros p Hp.
    apply (proj1 (forallb_forall _ _) Ham), (Permutation_in _ (Permutation_sym Hperm)), Hp.
  - apply forallb_forall. intros p Hp.
    apply (proj1 (forallb_forall _ _) Hai), (Permutation_in _ (Permutation_sym Hperm)), Hp.
Qed.

(** C6, as stated, fails.  With the two standard pairs alone, a
    macaroon that ends in [invoice=] makes the order matter: in the
    first order the search for the invoice matches across the closing
    quote of the macaroon.  And a further pair is not always ignored:
    the same three pairs give the invoice [I] in one order and the value
    [Z] of the pair named [xinvoice] in another. *)
Lemma parse_order_and_extras_counterexample :
  (parse_challenge (render_challenge "L402" [("macaroon", "invoice="); ("invoice", "I")])
   = inr ("invoice=", ", invoice=") /\
   parse_challenge (render_challenge "L402" [("invoice", "I"); ("macaroon", "invoice=")])
   = inr ("invoice=", "I")) /\
  (Permutation
     [("macaroon", "M"); ("invoice", "I"); ("xinvoice", "Z")]
     [("xinvoice", "Z"); ("macaroon", "M"); ("invoice", "I")] /\
   parse_challenge
     (render_challenge "L402" [("macaroon", "M"); ("invoice", "I"); ("xinvoice", "Z")])
   = inr ("M", "I") /\
   parse_challenge
     (render_challenge "L402" [("xinvoice", "Z"); ("macaroon", "M"); ("invoice", "I")])
   = inr ("M", "Z")).
Proof.
  split; [split; reflexivity|].
  split; [|split; reflexivity].
  apply Permutation_sym.
  apply (Permutation_cons_append [("macaroon", "M"); ("invoice", "I")] ("xinvoice", "Z")).
Qed.

Lemma parse_any_order_with_extras_witness :
  parse_challenge
    (render_challenge "LSAT" [("macaroon", "M1"); ("version", "0"); ("invoice", "lnbc1")])
  = inr ("M1", "lnbc1") /\
  parse_challenge
    (render_challenge "LSAT" [("invoice", "lnbc1"); ("version", "0"); ("macaroon", "M1")])
  = inr ("M1", "lnbc1").
Proof.
  apply (parse_any_order_with_extras "LSAT"
           [("macaroon", "M1"); ("version", "0"); ("invoice", "lnbc1")]
           [("invoice", "lnbc1"); ("version", "0"); ("macaroon", "M1")]
           "M1" "lnbc1").
  - right. reflexivity.
  - discriminate.
  - discriminate.
  - simpl. tauto.
  - simpl. tauto.
  - reflexivity.
  - reflexivity.
  - apply (Permutation_rev [("macaroon", "M1"); ("version", "0"); ("invoice", "lnbc1")]).
Defined.

(** ** Runs against the scripted transport and wallet *)

Example parse_standard :
  parse_challenge Mock.standard_header = inr ("M1", "lnbc1").
Proof. reflexivity. Qed.

Example parse_unquoted_invoice :
  parse_challenge ("L402 macaroon=" +:+ quoted "M1" +:+ ", invoice=lnbc1")
  = inl LogInvalidFormat.
Proof. reflexivity. Qed.

Example parse_empty_value :
  parse_challenge ("L402 macaroon=" +:+ quoted "" +:+ ", invoice=" +:+ quoted "lnbc1")
  = inl LogInvalidFormat.
Proof. reflexivity. Qed.

Example parse_unclosed_value :
  parse_challenge ("L402 macaroon=" +:+ quoted "M1" +:+ ", invoice=" +:+ String dq "lnbc1")
  = inl LogInvalidFormat.
Proof. reflexivity. Qed.

Example parse_no_scheme :
  parse_challenge ("Basic macaroon=" +:+ quoted "M1" +:+ ", invoice=" +:+ quoted "lnbc1")
  = inl LogNoScheme.
Proof. reflexivity. Qed.

(** The three malformations are inhabited. *)
Example malformed_absent : key_absent "invoice" ("L402 macaroon=" +:+ quoted "M1").
Proof. intros Ho. apply contains_spec in Ho. discriminate Ho. Qed.

Example malformed_unquoted :
  key_unquoted "invoice" ("L402 macaroon=" +:+ quoted "M1" +:+ ", invoice=lnbc1").
Proof.
  split; [apply contains_spec; reflexivity|].
  intros Ho. apply contains_spec in Ho. discriminate Ho.
Qed.

Example malformed_empty_value :
  key_empty_value "invoice" ("L402 invoice=" +:+ quoted "").
Proof.
  split; [apply contains_spec; reflexivity|].
  intros pre post Heq.
  assert (Hin : In (String.length pre)
                  (occurrences ("invoice=" +:+ String dq "") ("L402 invoice=" +:+ quoted ""))).
  { apply occurrences_spec. exists pre, post. split; [|reflexivity].
    rewrite Heq, !str_app_assoc. reflexivity. }
  destruct Hin as [Hlen | []].
  do 5 (destruct pre as [|? pre]; [discriminate Hlen|]).
  destruct pre; [|discriminate Hlen].
  injection Heq as _ _ _ _ _ <-. exists "". reflexivity.
Qed.

(** C9. There is a challenge header in which L402 occurs only inside a
    quoted value (position 20, between the quotes at 19 and 24), LSAT
    does not occur, and the texts [macaroon=] and [invoice=] occur only
    as the ends of the names [notmacaroon] and [xinvoice]; yet the parser
    extracts the two quoted values, the wallet is asked to pay, and the
    request is retried with the token built from them. *)
Theorem substring_recognition :
  exists a,
    a = render_challenge "Bearer" [("notmacaroon", "L402"); ("xinvoice", "lnbc1")] /\
    occurrences "L402" a = [20] /\
    occurrences "LSAT" a = [] /\
    occurrences (String dq "") a = [19; 24; 36; 42] /\
    occurrences "macaroon=" a = [10] /\
    occurrences "invoice=" a = [28] /\
    parse_challenge a = inr ("L402", "lnbc1") /\
    let run := Mock.call "GET" Mock.demo_url [] Mock.no_kwargs []
                 (Mock.wallet_pays "P1" [Returned (Mock.challenge a); Returned Mock.ok]) in
    run.1 = Returned Mock.ok /\
    pays (w_trace run.2) = [EvPay "lnbc1" (Returned (Some "P1"))] /\
    sends (w_trace run.2)
    = [first_send "GET" Mock.demo_url [] Mock.no_kwargs [] (Returned (Mock.challenge a));
       EvSend (retry_call "GET" Mock.demo_url [] Mock.no_kwargs 1)
         (Some {[ "Authorization" := "L402 L402:P1" ]}) (Returned Mock.ok)].
Proof.
  exists Mock.suffix_header. repeat split; vm_compute; reflexivity.
Qed.

(** *** The properties at concrete runs *)

Section Runs.

Import Mock.

(** A second 402 after a payment: returned as it is, one payment, two
    sends. *)
Lemma request_pays_once_sends_twice_witness :
  let run := call "GET" demo_url [] no_kwargs []
               (wallet_pays "P1" [Returned (challenge standard_header);
                                  Returned (challenge standard_header)]) in
  run.1 = Returned (challenge standard_header) /\
  length (pays (w_trace run.2)) = 1 /\
  length (sends (w_trace run.2)) = 2.
Proof.
  pose proof (@request_pays_once_sends_twice _ _ _ _
                status_code headers_get transport wallet
                "GET" demo_url [] no_kwargs []
                (wallet_pays "P1" [Returned (challenge standard_header);
                                   Returned (challenge standard_header)]))
    as (_ & _ & Hsecond).
  split; [|split; reflexivity].
  eapply Hsecond. reflexivity.
Defined.

(** Scenario E: a direct 200. *)
Lemma request_pass_through_witness :
  call "GET" demo_url [] no_kwargs [] (wallet_pays "P1" [Returned ok])
  = (Returned ok,
     {| w_heap := []; w_env := wallet_pays "P1" [];
        w_trace := [first_send "GET" demo_url [] no_kwargs [] (Returned ok)] |}).
Proof.
  apply (@request_pass_through _ _ _ _
           status_code headers_get transport wallet
           "GET" demo_url [] no_kwargs [] (wallet_pays "P1" [Returned ok])
           ok (wallet_pays "P1" [])).
  - reflexivity.
  - discriminate.
Defined.

(** Scenario B: a 402 without challenge header. *)
Lemma request_unusable_challenge_witness :
  let bare := {| status_code := 402; headers := ∅; text := "Payment Required" |} in
  exists line,
    call "GET" demo_url [] no_kwargs [] (wallet_pays "P1" [Returned bare])
    = (Returned bare,
       {| w_heap := []; w_env := wallet_pays "P1" [];
          w_trace := [first_send "GET" demo_url [] no_kwargs [] (Returned bare);
                      EvPrint line] |}).
Proof.
  intros bare.
  apply (@request_unusable_challenge _ _ _ _
           status_code headers_get transport wallet
           "GET" demo_url [] no_kwargs [] (wallet_pays "P1" [Returned bare])
           bare (wallet_pays "P1" [])).
  - reflexivity.
  - reflexivity.
  - left. reflexivity.
Defined.

(** Scenario D: the wallet raises. *)
Lemma request_payment_failure_witness :
  let out := Raised (OtherException "insufficient balance") in
  let run := call "GET" demo_url [] no_kwargs []
               (wallet_fails out [Returned (challenge standard_header)]) in
  run.1 = Returned (challenge standard_header) /\
  sends (w_trace run.2)
  = [first_send "GET" demo_url [] no_kwargs []
       (Returned (challenge standard_header))] /\
  pays (w_trace run.2) = [EvPay "lnbc1" out] /\
  w_heap run.2 = [].
Proof.
  intros out.
  apply (@request_payment_failure _ _ _ _
           status_code headers_get transport wallet
           "GET" demo_url [] no_kwargs []
           (wallet_fails out [Returned (challenge standard_header)])
           (challenge standard_header) (wallet_fails out [])
           standard_header "M1" "lnbc1" out (wallet_fails out [])).
  - reflexivity.
  - reflexivity.
  - reflexivity.
  - reflexivity.
  - reflexivity.
  - left. exists (OtherException "insufficient balance"). reflexivity.
Defined.

(** The credential example of the specification, on a challenge with
    the scheme word LSAT. *)
Lemma retry_authorization_header_witness :
  exists c2 hdrs out2,
    sends (w_trace (call "GET" demo_url [] no_kwargs []
                      (wallet_pays "def" [Returned (challenge lsat_header);
                                          Returned ok])).2)
    = [first_send "GET" demo_url [] no_kwargs [] (Returned (challenge lsat_header));
       EvSend c2 (Some hdrs) out2] /\
    hdrs !! "Authorization" = Some "L402 abc:def".
Proof.
  apply (@retry_authorization_header _ _ _ _
           status_code headers_get transport wallet
           "GET" demo_url [] no_kwargs []
           (wallet_pays "def" [Returned (challenge lsat_header); Returned ok])
           (challenge lsat_header) (wallet_pays "def" [Returned ok])
           lsat_header "abc" "lnbc1" "def" (wallet_pays "def" [Returned ok])).
  - reflexivity.
  - reflexivity.
  - reflexivity.
  - reflexivity.
  - reflexivity.
  - discriminate.
Defined.

(** The transport refuses the connection. *)
Lemma transport_failure_propagates_witness :
  call "GET" demo_url [] no_kwargs [] (wallet_pays "P1" [])
  = (Raised (RequestException "connection refused"),
     {| w_heap := []; w_env := wallet_pays "P1" [];
        w_trace := [first_send "GET" demo_url [] no_kwargs []
                      (Raised (RequestException "connection refused"))] |}).
Proof.
  apply (proj1 (@transport_failure_propagates _ _ _ _
                  status_code headers_get transport wallet
                  "GET" demo_url [] no_kwargs [] (wallet_pays "P1" []))).
  reflexivity.
Defined.

(** A caller's dict that already holds an [Authorization] entry. *)
Lemma retry_request_frame_witness :
  let run := call "POST" demo_url ["body"] dict_kwargs caller_store
               (wallet_pays "P1" [Returned (challenge standard_header); Returned ok]) in
  exists l2 hdrs out2,
    sends (w_trace run.2)
    = [first_send "POST" demo_url ["body"] dict_kwargs caller_store
         (Returned (challenge standard_header));
       EvSend {| c_method := "POST"; c_url := demo_url; c_args := ["body"];
                 c_kwargs := {| kw_headers := HeadersDict l2;
                                kw_other := kw_other dict_kwargs |} |}
         (Some hdrs) out2] /\
    hdrs = <[ "Authorization" := l402_token "M1" "P1" ]>
             (caller_headers caller_store dict_kwargs) /\
    hdrs !! "Authorization" = Some (l402_token "M1" "P1") /\
    (forall k, k <> "Authorization" ->
               hdrs !! k = caller_headers caller_store dict_kwargs !! k) /\
    length caller_store <= l2 /\
    (forall l d, caller_store !! l = Some d -> w_heap run.2 !! l = Some d).
Proof.
  apply (@retry_request_frame _ _ _ _
           status_code headers_get transport wallet
           "POST" demo_url ["body"] dict_kwargs caller_store
           (wallet_pays "P1" [Returned (challenge standard_header); Returned ok])
           (challenge standard_header) (wallet_pays "P1" [Returned ok])
           standard_header "M1" "lnbc1" "P1" (wallet_pays "P1" [Returned ok])).
  - reflexivity.
  - reflexivity.
  - reflexivity.
  - reflexivity.
  - reflexivity.
  - discriminate.
Defined.

(** [headers=None] next to another keyword argument. *)
Lemma retry_without_headers_witness :
  let run := call "GET" demo_url [] none_kwargs []
               (wallet_pays "P1" [Returned (challenge standard_header); Returned ok]) in
  exists l2 out2,
    run.1 = out2 /\
    sends (w_trace run.2)
    = [first_send "GET" demo_url [] none_kwargs []
         (Returned (challenge standard_header));
       EvSend (retry_call "GET" demo_url [] none_kwargs l2)
         (Some {[ "Authorization" := l402_token "M1" "P1" ]}) out2] /\
    length ([] : heap) <= l2.
Proof.
  apply (@retry_without_headers _ _ _ _
           status_code headers_get transport wallet
           "GET" demo_url [] none_kwargs []
           (wallet_pays "P1" [Returned (challenge standard_header); Returned ok])
           (challenge standard_header) (wallet_pays "P1" [Returned ok])
           standard_header "M1" "lnbc1" "P1" (wallet_pays "P1" [Returned ok])).
  - right. reflexivity.
  - reflexivity.
  - reflexivity.
  - reflexivity.
  - reflexivity.
  - reflexivity.
  - discriminate.
Defined.

(** Scenario A of the specification, evaluated. *)
Example scenario_paid_retry :
  let run := call "GET" demo_url [] no_kwargs []
               (wallet_pays "P1" [Returned (challenge standard_header); Returned ok]) in
  run.1 = Returned ok /\
  w_trace run.2
  = [first_send "GET" demo_url [] no_kwargs [] (Returned (challenge standard_header));
     EvPrint LogDetected;
     EvPrint (LogInvoice "lnbc1" "lnbc1");
     EvPay "lnbc1" (Returned (Some "P1"));
     EvPrint (LogPaymentConfirmed "P1");
     EvPrint LogRetrying;
     EvSend (retry_call "GET" demo_url [] no_kwargs 1)
       (Some {[ "Authorization" := "L402 M1:P1" ]}) (Returned ok)] /\
  w_heap run.2 = [∅; {[ "Authorization" := "L402 M1:P1" ]}].
Proof. repeat split; vm_compute; reflexivity. Qed.

(** The caller's dict after a paid retry is the one that was passed. *)
Example scenario_caller_dict_kept :
  let run := call "POST" demo_url ["body"] dict_kwargs caller_store
               (wallet_pays "P1" [Returned (challenge standard_header); Returned ok]) in
  w_heap run.2
  = [ {[ "Accept" := "application/json"; "Authorization" := "Basic old" ]};
      ∅;
      {[ "Accept" := "application/json"; "Authorization" := "L402 M1:P1" ]} ].
Proof. vm_compute. reflexivity. Qed.

(** An empty preimage counts as a failed payment. *)
Example scenario_empty_preimage :
  let run := call "GET" demo_url [] no_kwargs []
               (wallet_pays "" [Returned (challenge standard_header); Returned ok]) in
  run.1 = Returned (challenge standard_header) /\
  length (sends (w_trace run.2)) = 1.
Proof. split; vm_compute; reflexivity. Qed.

End Runs.

(** * Further properties *)

(** ** Further properties of the parser *)

(** X1. [re.search] takes the leftmost match: the search returns [v]
    exactly when the pattern matches with value [v] at some position and
    at no earlier position. *)
Theorem search_leftmost key s v :
  Re.search key s = Some v <->
  exists pre rest,
    s = pre +:+ rest /\ matches_at key v rest /\
    forall pre' rest' v',
      s = pre' +:+ rest' -> String.length pre' < String.length pre ->
      ~ matches_at key v' rest'.
Proof.
  split.
  - induction s as [|c s IH]; simpl.
    + destruct (Re.match_here key "") as [v'|] eqn:Hm; [|discriminate].
      intros [= ->]. exists "", "". split; [reflexivity|].
      split; [apply match_here_spec, Hm|]. intros pre' rest' v' _ Hlt. simpl in Hlt. lia.
    + destruct (Re.match_here key (String c s)) as [v'|] eqn:Hm.
      * intros [= ->]. exists "", (String c s). split; [reflexivity|].
        split; [apply match_here_spec, Hm|]. intros pre' rest' v' _ Hlt. simpl in Hlt. lia.
      * intros Hs. destruct (IH Hs) as (pre & rest & -> & Hr & Hleft).
        exists (String c pre), rest. split; [reflexivity|]. split; [exact Hr|].
        intros [|c' pre'] rest' v' Heq Hlt Hm'.
        -- rewrite str_app_nil_l in Heq. subst rest'.
           apply match_here_spec in Hm'. congruence.
        -- rewrite !str_app_cons in Heq. injection Heq as _ Heq.
           apply (Hleft pre' rest' v' Heq); [simpl in Hlt; lia | exact Hm'].
  - intros (pre & rest & -> & Hr & Hleft). induction pre as [|c pre IH].
    + rewrite str_app_nil_l. apply search_here, match_here_spec, Hr.
    + rewrite str_app_cons. simpl.
      destruct (Re.match_here key (String c (pre +:+ rest))) as [v'|] eqn:Hm.
      * exfalso. apply match_here_spec in Hm.
        apply (Hleft "" (String c (pre +:+ rest)) v'); [reflexivity | simpl; lia | exact Hm].
      * apply IH. intros pre' rest' v' Heq Hlt.
        apply (Hleft (String c pre') rest' v');
          [rewrite !str_app_cons, Heq; reflexivity | simpl; lia].
Qed.

Lemma matches_at_occurs key v pre rest :
  matches_at key v rest ->
  v <> "" /\ quote_free v = true /\ occurs (key +:+ "=" +:+ quoted v) (pre +:+ rest).
Proof.
  intros (Hne & Hq & post & ->). split; [exact Hne|]. split; [exact Hq|].
  exists pre, post. rewrite !str_app_assoc. reflexivity.
Qed.

Lemma parse_challenge_inr a macaroon invoice :
  parse_challenge a = inr (macaroon, invoice) ->
  (occurs "L402" a \/ occurs "LSAT" a) /\
  macaroon <> "" /\ quote_free macaroon = true /\
  occurs ("macaroon=" +:+ quoted macaroon) a /\
  invoice <> "" /\ quote_free invoice = true /\
  occurs ("invoice=" +:+ quoted invoice) a.
Proof.
  unfold parse_challenge.
  destruct (Py.contains "L402" a) eqn:E1; destruct (Py.contains "LSAT" a) eqn:E2;
    cbn [negb andb]; try discriminate;
    (destruct (Re.search "macaroon" a) as [m|] eqn:Hm; [|discriminate]);
    (destruct (Re.search "invoice" a) as [i|] eqn:Hi; [|discriminate]);
    intros [= <- <-];
    apply search_sound in Hm as (pm & rm & Hma & Hmm);
    apply search_sound in Hi as (pi & ri & Hia & Him);
    apply (matches_at_occurs _ _ pm) in Hmm as (? & ? & Hom);
    apply (matches_at_occurs _ _ pi) in Him as (? & ? & Hoi);
    rewrite <- Hma in Hom; rewrite <- Hia in Hoi;
    (split; [first [left; apply contains_spec; assumption
                   | right; apply contains_spec; assumption]|]);
    auto 10.
Qed.

(** X2. The two values that the parser extracts are non-empty, free
    of quotes, and stand in the header after their key, between quotes;
    and the header has one of the scheme words in it. *)
Theorem parse_challenge_values a macaroon invoice :
  parse_challenge a = inr (macaroon, invoice) ->
  (occurs "L402" a \/ occurs "LSAT" a) /\
  macaroon <> "" /\ quote_free macaroon = true /\
  occurs ("macaroon=" +:+ quoted macaroon) a /\
  invoice <> "" /\ quote_free invoice = true /\
  occurs ("invoice=" +:+ quoted invoice) a.
Proof. apply parse_challenge_inr. Qed.

Lemma search_is_Some key a : is_Some (Re.search key a) <-> has_value key a.
Proof.
  split.
  - intros [v Hs]. apply search_sound in Hs as (pre & rest & Heq & Hm).
    exists pre, rest, v. auto.
  - intros (pre & rest & v & -> & Hm). eapply search_complete, Hm.
Qed.

Lemma parse_challenge_cases a :
  (parse_challenge a = inl LogNoScheme <-> lacks_scheme a) /\
  (parse_challenge a = inl LogInvalidFormat <->
   ~ lacks_scheme a /\ ~ (has_value "macaroon" a /\ has_value "invoice" a)) /\
  ((exists macaroon invoice, parse_challenge a = inr (macaroon, invoice)) <->
   ~ lacks_scheme a /\ has_value "macaroon" a /\ has_value "invoice" a).
Proof.
  assert (Hscheme : negb (Py.contains "L402" a) && negb (Py.contains "LSAT" a) = true
                    <-> lacks_scheme a).
  { unfold lacks_scheme. rewrite <- !contains_spec.
    destruct (Py.contains "L402" a), (Py.contains "LSAT" a); cbn [negb andb];
      intuition congruence. }
  pose proof (search_is_Some "macaroon" a) as Hm.
  pose proof (search_is_Some "invoice" a) as Hi.
  unfold parse_challenge.
  destruct (negb (Py.contains "L402" a) && negb (Py.contains "LSAT" a)) eqn:E.
  - assert (Hl : lacks_scheme a) by (apply Hscheme; reflexivity).
    split; [tauto|]. split.
    + split; [discriminate | tauto].
    + split; [intros (m & i & Heq); discriminate Heq | tauto].
  - assert (Hl : ~ lacks_scheme a) by (intros Hl; apply Hscheme in Hl; discriminate).
    destruct (Re.search "macaroon" a) as [m|]; destruct (Re.search "invoice" a) as [i|].
    + assert (has_value "macaroon" a) by (apply Hm; eauto).
      assert (has_value "invoice" a) by (apply Hi; eauto).
      split; [split; [discriminate | tauto]|].
      split; [split; [discriminate | tauto]|]. split; eauto.
    + assert (~ has_value "invoice" a) by (intros Hv; apply Hi in Hv as [? ?]; discriminate).
      split; [split; [discriminate | tauto]|].
      split; [tauto|]. split; [intros (? & ? & Heq); discriminate Heq | tauto].
    + assert (~ has_value "macaroon" a) by (intros Hv; apply Hm in Hv as [? ?]; discriminate).
      split; [split; [discriminate | tauto]|].
      split; [tauto|]. split; [intros (? & ? & Heq); discriminate Heq | tauto].
    + assert (~ has_value "macaroon" a) by (intros Hv; apply Hm in Hv as [? ?]; discriminate).
      split; [split; [discriminate | tauto]|].
      split; [tauto|]. split; [intros (? & ? & Heq); discriminate Heq | tauto].
Qed.

(** X3. The three outcomes of parsing: the scheme line exactly when
    neither scheme word occurs; the format line exactly when a scheme
    word occurs and a quoted non-empty value is missing for [macaroon]
    or for [invoice]; a pair of values exactly when a scheme word and
    both values are there. *)
Theorem parse_challenge_outcome a :
  (parse_challenge a = inl LogNoScheme <-> lacks_scheme a) /\
  (parse_challenge a = inl LogInvalidFormat <->
   ~ lacks_scheme a /\ ~ (has_value "macaroon" a /\ has_value "invoice" a)) /\
  ((exists macaroon invoice, parse_challenge a = inr (macaroon, invoice)) <->
   ~ lacks_scheme a /\ has_value "macaroon" a /\ has_value "invoice" a).
Proof. apply parse_challenge_cases. Qed.

(** X4. The two scheme words are interchangeable: in front of the
    same text they give the same parse. *)
Theorem parse_challenge_scheme_independent rest :
  parse_challenge ("L402 " +:+ rest) = parse_challenge ("LSAT " +:+ rest).
Proof.
  unfold parse_challenge.
  change ("L402 " +:+ rest) with ("L402" +:+ " " +:+ rest) at 1 2.
  change ("LSAT " +:+ rest) with ("LSAT" +:+ " " +:+ rest) at 1 2.
  rewrite (contains_prefix "L402" (" " +:+ rest)), (contains_prefix "LSAT" (" " +:+ rest)).
  rewrite andb_false_r. cbn [negb andb]. reflexivity.
Qed.

Lemma count_quotes_app s t : count_quotes (s +:+ t) = count_quotes s + count_quotes t.
Proof.
  induction s as [|c s IH]; [reflexivity|].
  rewrite str_app_cons. simpl. rewrite IH. lia.
Qed.

Lemma count_quotes_free s : quote_free s = true -> count_quotes s = 0.
Proof.
  induction s as [|c s IH]; [reflexivity|]. simpl. intros Hq.
  apply andb_prop in Hq as [Hc Hs]. rewrite (IH Hs).
  destruct (Ascii.eqb c dq); [discriminate Hc | reflexivity].
Qed.

Lemma matches_at_quotes key v s : matches_at key v s -> 2 <= count_quotes s.
Proof.
  intros (_ & _ & post & ->). rewrite quoted_app, !count_quotes_app.
  simpl. rewrite count_quotes_app. simpl. lia.
Qed.

Lemma search_quotes key s v : Re.search key s = Some v -> 2 <= count_quotes s.
Proof.
  intros Hs. apply search_sound in Hs as (pre & rest & -> & Hm).
  apply matches_at_quotes in Hm. rewrite count_quotes_app. lia.
Qed.

Lemma matches_at_app key v s extra : matches_at key v s -> matches_at key v (s +:+ extra).
Proof.
  intros (Hne & Hq & post & ->). split; [exact Hne|]. split; [exact Hq|].
  exists (post +:+ extra). rewrite !str_app_assoc. reflexivity.
Qed.

(** A match that needs the appended text starts in a string with at most
    one quote. *)
Lemma late_match_quotes key s extra w :
  quote_free key = true ->
  Re.match_here key s = None ->
  Re.match_here key (s +:+ extra) = Some w ->
  count_quotes s <= 1.
Proof.
  intros Hk Hnone Hsome.
  apply match_here_spec in Hsome as (Hne & Hq & post & Heq).
  rewrite quoted_app in Heq.
  assert (Hfull : key +:+ "=" +:+ String dq (w +:+ String dq post)
                  = (key +:+ "=" +:+ String dq w) +:+ String dq post).
  { rewrite !str_app_assoc. reflexivity. }
  rewrite Hfull in Heq.
  assert (Hc : count_quotes (key +:+ "=" +:+ String dq w) = 1).
  { rewrite !count_quotes_app. simpl.
    rewrite (count_quotes_free key Hk), (count_quotes_free w Hq). reflexivity. }
  apply str_app_eq_app in Heq as [u [[Hs Hu] | [Hs Hu]]].
  - destruct u as [|c u].
    + rewrite str_app_nil_r in Hs. rewrite Hs, Hc. lia.
    + exfalso. rewrite str_app_cons in Hu. injection Hu as <- Hpost.
      assert (Hm : matches_at key w s).
      { split; [exact Hne|]. split; [exact Hq|]. exists u.
        rewrite Hs, quoted_app, !str_app_assoc. reflexivity. }
      apply match_here_spec in Hm. congruence.
  - assert (count_quotes s + count_quotes u = 1) by (rewrite <- count_quotes_app, <- Hs; exact Hc).
    lia.
Qed.

Lemma search_app key s v extra :
  quote_free key = true ->
  Re.search key s = Some v -> Re.search key (s +:+ extra) = Some v.
Proof.
  intros Hk. induction s as [|c s IH]; intros Hs.
  - simpl in Hs. destruct (Re.match_here key "") as [v'|] eqn:Hm; [|discriminate].
    injection Hs as ->. apply search_here, match_here_spec, matches_at_app, match_here_spec, Hm.
  - simpl in Hs. rewrite str_app_cons.
    destruct (Re.match_here key (String c s)) as [v'|] eqn:Hm.
    + injection Hs as ->. apply search_here.
      change (String c (s +:+ extra)) with (String c s +:+ extra).
      apply match_here_spec, matches_at_app, match_here_spec, Hm.
    + simpl.
      destruct (Re.match_here key (String c (s +:+ extra))) as [w|] eqn:Hw.
      * exfalso.
        change (String c (s +:+ extra)) with (String c s +:+ extra) in Hw.
        pose proof (late_match_quotes key _ _ _ Hk Hm Hw) as Hle.
        pose proof (search_quotes _ _ _ Hs) as Hge.
        simpl in Hle. lia.
      * apply IH, Hs.
Qed.

Lemma contains_app p s extra :
  Py.contains p s = true -> Py.contains p (s +:+ extra) = true.
Proof.
  rewrite !contains_spec. intros (pre & post & ->). exists pre, (post +:+ extra).
  rewrite !str_app_assoc. reflexivity.
Qed.

(** X5. Text appended to a header that parses does not change what is
    extracted. *)
Theorem parse_challenge_append a extra macaroon invoice :
  parse_challenge a = inr (macaroon, invoice) ->
  parse_challenge (a +:+ extra) = inr (macaroon, invoice).
Proof.
  unfold parse_challenge.
  destruct (negb (Py.contains "L402" a) && negb (Py.contains "LSAT" a)) eqn:E;
    [discriminate|].
  destruct (Re.search "macaroon" a) as [m|] eqn:Hm; [|discriminate].
  destruct (Re.search "invoice" a) as [i|] eqn:Hi; [|discriminate].
  intros [= <- <-].
  rewrite (search_app "macaroon" a m extra eq_refl Hm).
  rewrite (search_app "invoice" a i extra eq_refl Hi).
  assert (Hs : negb (Py.contains "L402" (a +:+ extra))
               && negb (Py.contains "LSAT" (a +:+ extra)) = false).
  { destruct (Py.contains "L402" a) eqn:E1.
    - rewrite (contains_app _ _ extra E1). reflexivity.
    - destruct (Py.contains "LSAT" a) eqn:E2; [|discriminate E].
      rewrite (contains_app _ _ extra E2). apply andb_false_r. }
  rewrite Hs. reflexivity.
Qed.

Lemma first_colon_unique a b r1 r2 :
  colon_free a = true -> colon_free b = true ->
  a +:+ ":" +:+ r1 = b +:+ ":" +:+ r2 -> a = b /\ r1 = r2.
Proof.
  revert b. induction a as [|c a IH]; intros b Ha Hb Heq.
  - destruct b as [|d b].
    + change (String ":" r1 = String ":" r2) in Heq. injection Heq as ->. auto.
    + change (String ":" r1 = String d (b +:+ ":" +:+ r2)) in Heq.
      injection Heq as <- _. discriminate Hb.
  - destruct b as [|d b].
    + change (String c (a +:+ ":" +:+ r1) = String ":" r2) in Heq.
      injection Heq as -> _. discriminate Ha.
    + rewrite !str_app_cons in Heq. injection Heq as -> Heq.
      simpl in Ha, Hb. apply andb_prop in Ha as [_ Ha]. apply andb_prop in Hb as [_ Hb].
      destruct (IH _ Ha Hb Heq) as [-> ->]. auto.
Qed.

(** X6. The token of a macaroon without colon determines the macaroon
    and the preimage. *)
Theorem l402_token_injective macaroon preimage macaroon' preimage' :
  colon_free macaroon = true -> colon_free macaroon' = true ->
  l402_token macaroon preimage = l402_token macaroon' preimage' ->
  macaroon = macaroon' /\ preimage = preimage'.
Proof.
  intros Hm Hm' Heq. unfold l402_token in Heq.
  apply (inj (String.app "L402 ")) in Heq.
  apply first_colon_unique in Heq; assumption.
Qed.

Example l402_token_colon_ambiguous : l402_token "a:b" "c" = l402_token "a" "b:c".
Proof. reflexivity. Qed.

Lemma str_take_drop n s : Py.take n s +:+ Py.drop n s = s.
Proof.
  revert s. induction n as [|n IH]; intros [|c s]; try reflexivity.
  simpl. rewrite str_app_cons, IH. reflexivity.
Qed.

Lemma str_length_take n s : String.length (Py.take n s) = Nat.min n (String.length s).
Proof.
  revert s. induction n as [|n IH]; intros [|c s]; try reflexivity.
  simpl. rewrite IH. reflexivity.
Qed.

Lemma str_length_drop n s : String.length (Py.drop n s) = String.length s - n.
Proof.
  revert s. induction n as [|n IH]; intros [|c s]; try reflexivity.
  simpl. apply IH.
Qed.

(** X7. The slices of the log lines (the first 20 and the last 10
    characters of the invoice, the first 10 of the preimage): [s[:n]] is
    the prefix and [s[-n:]] the suffix of [s] of length [min n (len s)],
    so a string of at most [n] characters is shown whole. *)
Theorem log_slices n s :
  0 < n ->
  (exists rest, s = Py.take n s +:+ rest) /\
  String.length (Py.take n s) = Nat.min n (String.length s) /\
  suffix_of (Py.last n s) s /\
  String.length (Py.last n s) = Nat.min n (String.length s) /\
  (String.length s <= n -> Py.take n s = s /\ Py.last n s = s).
Proof.
  intros _.
  split; [exists (Py.drop n s); symmetry; apply str_take_drop|].
  split; [apply str_length_take|].
  unfold Py.last. split; [|split].
  - exists (Py.take (String.length s - n) s). symmetry. apply str_take_drop.
  - rewrite str_length_drop. lia.
  - intros Hle. replace (String.length s - n) with 0 by lia. split; [|reflexivity].
    pose proof (str_take_drop n s) as Htd.
    pose proof (str_length_drop n s) as Hld.
    replace (String.length s - n) with 0 in Hld by lia.
    destruct (Py.drop n s); [|discriminate Hld].
    rewrite str_app_nil_r in Htd. exact Htd.
Qed.

(** ** Further properties of one call of [request] *)

Lemma payment_error_None out :
  payment_error out = None <-> exists p, out = Returned (Some p) /\ p <> "".
Proof.
  split.
  - destruct out as [[[|c p]|]|e]; try discriminate. intros _. eexists. split; [reflexivity|discriminate].
  - intros (p & -> & Hp). destruct p; [contradiction|reflexivity].
Qed.

Section MoreRequestProperties.

Context {Args Options Response Env : Type}.
Variable status_code : Response -> Z.
Variable headers_get : Response -> string -> option string.
Variable transport : Call Args Options -> heap -> Env -> Result Response * Env.
Context {wallet : LightningWallet Env}.

Variables (method url : string) (args : Args) (kwargs : Kwargs Options).
Variables (h : heap) (env : Env).

Local Abbreviation c0 := (first_call method url args kwargs).
Local Abbreviation ev0 := (first_send method url args kwargs h).
Local Abbreviation run :=
  (call_request status_code headers_get transport method url args kwargs h env).

(** X8. The wallet is asked to pay only in answer to a first response
    of status 402 whose challenge header parses, and what it is asked to
    pay is the non-empty invoice quoted in that header. *)
Theorem payment_only_for_challenge invoice out :
  In (EvPay invoice out) (w_trace run.2) ->
  exists r env1 a macaroon,
    transport c0 h env = (Returned r, env1) /\
    status_code r = 402%Z /\
    headers_get r "WWW-Authenticate" = Some a /\
    parse_challenge a = inr (macaroon, invoice) /\
    invoice <> "" /\
    occurs ("invoice=" +:+ quoted invoice) a.
Proof.
  destruct (request_path status_code headers_get transport
              method url args kwargs h env) as (res & w & -> & Hp).
  cbn [snd]. intros Hin.
  destruct Hp as
    [e env1 Ht | r env1 Ht Hst | r env1 Ht Hst Hg | r env1 a line Ht Hst Hg Ha Hp
    | r env1 a m i out' env2 e Ht Hst Hg Hp Hw He
    | r env1 a m i p env2 h2 l2 out2 env3 Ht Hst Hg Hp Hw Hne Hs Ht2];
    cbn [w_trace] in Hin; unfold first_send in Hin;
    repeat match type of Hin with
           | In _ (_ :: _) => destruct Hin as [Hin' | Hin]; [try discriminate Hin'|]
           | In _ [] => destruct Hin
           end.
  - injection Hin' as <- <-.
    destruct (parse_challenge_inr a m i Hp) as (_ & _ & _ & _ & Hi & _ & Ho).
    exists r, env1, a, m. auto 10.
  - injection Hin' as <- <-.
    destruct (parse_challenge_inr a m i Hp) as (_ & _ & _ & _ & Hi & _ & Ho).
    exists r, env1, a, m. auto 10.
Qed.

(** X9. A second send happens exactly when the wallet returned a
    non-empty preimage. *)
Theorem retry_iff_paid :
  length (sends (w_trace run.2)) = 2 <->
  exists invoice preimage,
    pays (w_trace run.2) = [EvPay invoice (Returned (Some preimage))] /\ preimage <> "".
Proof.
  destruct (request_path status_code headers_get transport
              method url args kwargs h env) as (res & w & -> & Hp).
  cbn [snd].
  destruct Hp as
    [e env1 Ht | r env1 Ht Hst | r env1 Ht Hst Hg | r env1 a line Ht Hst Hg Ha Hp
    | r env1 a m i out' env2 e Ht Hst Hg Hp Hw He
    | r env1 a m i p env2 h2 l2 out2 env3 Ht Hst Hg Hp Hw Hne Hs Ht2];
    trace_facts;
    (split; [intros Hlen | intros (i' & p' & Heq & Hp')]); try discriminate.
  - exfalso. injection Heq as _ ->.
    assert (payment_error (Returned (Some p')) = None)
      by (apply payment_error_None; eauto).
    congruence.
  - eauto.
  - reflexivity.
Qed.

(** X10. [request] ends the way its last send ended: with that
    response or with that exception. *)
Theorem result_is_last_send :
  exists before c hdrs,
    sends (w_trace run.2) = (before ++ [EvSend c hdrs run.1])%list.
Proof.
  destruct (request_path status_code headers_get transport
              method url args kwargs h env) as (res & w & -> & Hp).
  cbn [fst snd].
  destruct Hp; trace_facts;
    first [ eexists [], _, _; reflexivity | eexists [_], _, _; reflexivity ].
Qed.

(** X11. The store only grows: the caller's objects keep their place
    and content, at most three dicts are added, and none when there is
    no retry. *)
Theorem request_store_grows :
  exists new,
    w_heap run.2 = (h ++ new)%list /\
    length new <= 3 /\
    (length (sends (w_trace run.2)) = 1 -> new = []).
Proof.
  destruct (request_path status_code headers_get transport
              method url args kwargs h env) as (res & w & -> & Hp).
  cbn [snd].
  destruct Hp as
    [e env1 Ht | r env1 Ht Hst | r env1 Ht Hst Hg | r env1 a line Ht Hst Hg Ha Hp
    | r env1 a m i out' env2 e Ht Hst Hg Hp Hw He
    | r env1 a m i p env2 h2 l2 out2 env3 Ht Hst Hg Hp Hw Hne Hs Ht2];
    trace_facts;
    try (exists []; rewrite app_nil_r; split; [reflexivity|]; split; [simpl; lia | reflexivity]).
  unfold retry_store in Hs.
  destruct (kw_headers kwargs); injection Hs as <- _;
    eexists; (split; [reflexivity|]); (split; [simpl; lia | discriminate]).
Qed.

(** X12. The first thing [request] does is to send the caller's call
    as it was given, with the headers the caller's dict holds. *)
Theorem first_send_is_callers_call :
  exists out env1 rest,
    transport c0 h env = (out, env1) /\
    w_trace run.2 = ev0 out :: rest.
Proof.
  destruct (request_path status_code headers_get transport
              method url args kwargs h env) as (res & w & -> & Hp).
  cbn [snd].
  destruct Hp; cbn [w_trace]; eexists _, _, _; (split; [eassumption | reflexivity]).
Qed.

End MoreRequestProperties.

Lemma parse_challenge_line a line :
  parse_challenge a = inl line -> line = LogNoScheme \/ line = LogInvalidFormat.
Proof.
  unfold parse_challenge. destruct (negb _ && negb _); [intros [= <-]; auto|].
  destruct (Re.search "macaroon" a), (Re.search "invoice" a); intros [= <-]; auto.
Qed.

Section AgentWallet.

Import DemoAgent.

Context {Args Options Response T : Type}.
Variable status_code : Response -> Z.
Variable headers_get : Response -> string -> option string.
Variable transport :
  Call Args Options -> heap -> T * list wallet_log -> Result Response * (T * list wallet_log).

Variables (method url : string) (args : Args) (kwargs : Kwargs Options).
Variables (h : heap) (env : T * list wallet_log).

Local Abbreviation c0 := (first_call method url args kwargs).
Local Abbreviation ev0 := (first_send method url args kwargs h).
Local Abbreviation run :=
  (call_request (wallet := MockAgentWallet) status_code headers_get transport
     method url args kwargs h env).

(** X14. With the wallet of the agent demo every 402 whose challenge
    parses is paid and retried: the wallet logs its four lines, the first
    with the length of the invoice, and the retry carries the token made
    of the macaroon and the fixed preimage of 64 characters. *)
Theorem agent_wallet_pays_and_retries r env1 a macaroon invoice :
  transport c0 h env = (Returned r, env1) ->
  status_code r = 402%Z ->
  headers_get r "WWW-Authenticate" = Some a ->
  parse_challenge a = inr (macaroon, invoice) ->
  exists l2 hdrs out2 env3,
    transport (retry_call method url args kwargs l2) (w_heap run.2)
      (env1.1, (env1.2 ++ [WalletReceived (String.length invoice);
                           WalletDeciding; WalletSigning; WalletSent])%list)
    = (out2, env3) /\
    run.1 = out2 /\
    w_env run.2 = env3 /\
    pays (w_trace run.2)
    = [EvPay invoice
         (Returned (Some "a1b2c3d4e5f67890a1b2c3d4e5f67890a1b2c3d4e5f67890a1b2c3d4e5f67890"))] /\
    sends (w_trace run.2)
    = [ev0 (Returned r); EvSend (retry_call method url args kwargs l2) (Some hdrs) out2] /\
    hdrs !! "Authorization"
    = Some ("L402 " +:+ macaroon
            +:+ ":a1b2c3d4e5f67890a1b2c3d4e5f67890a1b2c3d4e5f67890a1b2c3d4e5f67890").
Proof.
  intros Ht Hst Hg Hp.
  destruct (retry_store h kwargs (l402_token macaroon fake_preimage)) as [h2 l2] eqn:Hs.
  destruct (transport (retry_call method url args kwargs l2) h2
              (env1.1, (env1.2 ++ pay_invoice_lines invoice)%list))
    as [out2 env3] eqn:Ht2.
  erewrite path_request; cycle 1.
  { eapply PathRetry; try eassumption; [reflexivity | discriminate]. }
  apply retry_store_spec in Hs as (Hl & _ & _).
  exists l2, (<[ "Authorization" := l402_token macaroon fake_preimage ]>
               (caller_headers h kwargs)), out2, env3.
  trace_facts. rewrite Hl.
  split; [exact Ht2|]. split; [reflexivity|]. split; [reflexivity|].
  split; [reflexivity|]. split; [reflexivity|].
  rewrite lookup_insert_eq. reflexivity.
Qed.

(** X15. With the wallet of the agent demo no payment fails: the
    failure line is never printed, and every payment returns the fixed
    preimage and is followed by the retry. *)
Theorem agent_wallet_never_fails :
  (forall e, ~ In (EvPrint (LogPaymentFailed e)) (w_trace run.2)) /\
  (forall invoice out,
     In (EvPay invoice out) (w_trace run.2) ->
     out = Returned (Some fake_preimage) /\ length (sends (w_trace run.2)) = 2).
Proof.
  destruct (request_path (wallet := MockAgentWallet) status_code headers_get transport
              method url args kwargs h env) as (res & w & -> & Hp).
  cbn [snd].
  destruct Hp as
    [e env1 Ht | r env1 Ht Hst | r env1 Ht Hst Hg | r env1 a line Ht Hst Hg Ha Hp
    | r env1 a m i out' env2 e Ht Hst Hg Hp Hw He
    | r env1 a m i p env2 h2 l2 out2 env3 Ht Hst Hg Hp Hw Hne Hs Ht2].
  5:{ exfalso. injection Hw as <- _. discriminate He. }
  all: trace_facts; split;
    [ intros e' Hin | intros invoice out Hin ];
    unfold first_send in Hin;
    repeat match type of Hin with
           | In _ (_ :: _) => destruct Hin as [Hin' | Hin]; [try discriminate Hin'|]
           | In _ [] => destruct Hin
           end.
  - apply parse_challenge_line in Hp. injection Hin' as ->.
    destruct Hp as [Hp | Hp]; discriminate Hp.
  - injection Hw as <- _. injection Hin' as _ <-. split; reflexivity.
Qed.

End AgentWallet.

Lemma lacks_scheme_parse_inv a : parse_challenge a = inl LogNoScheme -> lacks_scheme a.
Proof. apply parse_challenge_cases. Qed.

Section Diagnostics.

Context {Args Options Response Env : Type}.
Variable status_code : Response -> Z.
Variable headers_get : Response -> string -> option string.
Variable transport : Call Args Options -> heap -> Env -> Result Response * Env.
Context {wallet : LightningWallet Env}.

Variables (method url : string) (args : Args) (kwargs : Kwargs Options).
Variables (h : heap) (env : Env).

Local Abbreviation c0 := (first_call method url args kwargs).
Local Abbreviation run :=
  (call_request status_code headers_get transport method url args kwargs h env).

Ltac log_members :=
  cbn [w_trace In]; unfold first_send.

(** X13. After a 402 the diagnostic line names the cause: the header
    line for an absent or empty header, the scheme line for a non-empty
    header without scheme word, the format line for a header with a
    scheme word but without both quoted values. *)
Theorem diagnostic_names_cause r env1 :
  transport c0 h env = (Returned r, env1) ->
  status_code r = 402%Z ->
  (In (EvPrint LogNoHeader) (w_trace run.2) <->
   headers_get r "WWW-Authenticate" = None \/
   headers_get r "WWW-Authenticate" = Some "") /\
  (In (EvPrint LogNoScheme) (w_trace run.2) <->
   exists a, headers_get r "WWW-Authenticate" = Some a /\ a <> "" /\ lacks_scheme a) /\
  (In (EvPrint LogInvalidFormat) (w_trace run.2) <->
   exists a, headers_get r "WWW-Authenticate" = Some a /\ ~ lacks_scheme a /\
             ~ (has_value "macaroon" a /\ has_value "invoice" a)).
Proof.
  intros Ht Hst.
  assert (Hempty : lacks_scheme "").
  { apply lacks_scheme_parse_inv. reflexivity. }
  destruct (request_path status_code headers_get transport
              method url args kwargs h env) as (res & w & -> & Hp).
  cbn [snd].
  destruct Hp as
    [e env1' Ht' | r' env1' Ht' Hst' | r' env1' Ht' Hst' Hg | r' env1' a line Ht' Hst' Hg Ha Hp
    | r' env1' a m i out' env2 e Ht' Hst' Hg Hp Hw He
    | r' env1' a m i p env2 h2 l2 out2 env3 Ht' Hst' Hg Hp Hw Hne Hs Ht2];
    rewrite Ht in Ht'; try discriminate Ht'; injection Ht' as <- <-;
    try contradiction; log_members.
  - (* no header *)
    split; [tauto|]. split.
    + split; [intros [H|[H|[]]]; discriminate H|].
      intros (a & Ha & Hne & _). destruct Hg as [Hg|Hg]; congruence.
    + split; [intros [H|[H|[]]]; discriminate H|].
      intros (a & Ha & Hl & _). destruct Hg as [Hg|Hg]; [congruence|].
      assert (a = "") by congruence. subst a. contradiction.
  - (* parse error *)
    destruct (parse_challenge_cases a) as (Hsch & Hi & _).
    split; [|split].
    + split.
      * intros [H|[H|[]]]; [discriminate H|]. injection H as ->.
        apply parse_challenge_line in Hp. destruct Hp; discriminate.
      * intros [Hn | Hn]; congruence.
    + split.
      * intros [H|[H|[]]]; [discriminate H|]. injection H as ->.
        exists a. split; [exact Hg|]. split; [exact Ha|]. apply Hsch, Hp.
      * intros (a' & Ha' & _ & Hl). assert (a' = a) by congruence. subst a'.
        apply Hsch in Hl. right. left. congruence.
    + split.
      * intros [H|[H|[]]]; [discriminate H|]. injection H as ->.
        exists a. split; [exact Hg|]. apply Hi, Hp.
      * intros (a' & Ha' & Hl). assert (a' = a) by congruence. subst a'.
        apply Hi in Hl. right. left. congruence.
  - (* payment failed *)
    destruct (parse_challenge_cases a) as (Hsch & Hi & _).
    split; [|split].
    + split.
      * intros [H|[H|[H|[H|[H|[]]]]]]; discriminate H.
      * intros [Hn | Hn]; [congruence|]. assert (a = "") by congruence. subst a. discriminate Hp.
    + split.
      * intros [H|[H|[H|[H|[H|[]]]]]]; discriminate H.
      * intros (a' & Ha' & _ & Hl). assert (a' = a) by congruence. subst a'.
        apply Hsch in Hl. congruence.
    + split.
      * intros [H|[H|[H|[H|[H|[]]]]]]; discriminate H.
      * intros (a' & Ha' & Hl). assert (a' = a) by congruence. subst a'.
        apply Hi in Hl. congruence.
  - (* retry *)
    destruct (parse_challenge_cases a) as (Hsch & Hi & _).
    split; [|split].
    + split.
      * intros [H|[H|[H|[H|[H|[H|[H|[]]]]]]]]; discriminate H.
      * intros [Hn | Hn]; [congruence|]. assert (a = "") by congruence. subst a. discriminate Hp.
    + split.
      * intros [H|[H|[H|[H|[H|[H|[H|[]]]]]]]]; discriminate H.
      * intros (a' & Ha' & _ & Hl). assert (a' = a) by congruence. subst a'.
        apply Hsch in Hl. congruence.
    + split.
      * intros [H|[H|[H|[H|[H|[H|[H|[]]]]]]]]; discriminate H.
      * intros (a' & Ha' & Hl). assert (a' = a) by congruence. subst a'.
        apply Hi in Hl. congruence.
Qed.

End Diagnostics.

(** *** The further properties at concrete runs *)

Section MoreRuns.

Import Mock.

Lemma parse_challenge_values_witness :
  (occurs "L402" standard_header \/ occurs "LSAT" standard_header) /\
  "M1" <> "" /\ quote_free "M1" = true /\
  occurs ("macaroon=" +:+ quoted "M1") standard_header /\
  "lnbc1" <> "" /\ quote_free "lnbc1" = true /\
  occurs ("invoice=" +:+ quoted "lnbc1") standard_header.
Proof.
  apply (parse_challenge_values standard_header "M1" "lnbc1"). reflexivity.
Defined.

Lemma parse_challenge_append_witness :
  parse_challenge (standard_header +:+ ", version=" +:+ quoted "0") = inr ("M1", "lnbc1").
Proof.
  apply (parse_challenge_append standard_header (", version=" +:+ quoted "0") "M1" "lnbc1").
  reflexivity.
Defined.

Lemma l402_token_injective_witness : "abc" = "abc" /\ "def" = "def".
Proof.
  apply (l402_token_injective "abc" "def" "abc" "def"); reflexivity.
Defined.

Lemma log_slices_witness :
  (exists rest, "lnbc1" = Py.take 10 "lnbc1" +:+ rest) /\
  String.length (Py.take 10 "lnbc1") = Nat.min 10 (String.length "lnbc1") /\
  suffix_of (Py.last 10 "lnbc1") "lnbc1" /\
  String.length (Py.last 10 "lnbc1") = Nat.min 10 (String.length "lnbc1") /\
  (String.length "lnbc1" <= 10 -> Py.take 10 "lnbc1" = "lnbc1" /\ Py.last 10 "lnbc1" = "lnbc1").
Proof.
  apply (log_slices 10 "lnbc1"). lia.
Defined.

Lemma payment_only_for_challenge_witness :
  exists r env1 a macaroon,
    transport (first_call "GET" demo_url [] no_kwargs) []
      (wallet_pays "P1" [Returned (challenge standard_header); Returned ok])
    = (Returned r, env1) /\
    status_code r = 402%Z /\
    headers_get r "WWW-Authenticate" = Some a /\
    parse_challenge a = inr (macaroon, "lnbc1") /\
    "lnbc1" <> "" /\
    occurs ("invoice=" +:+ quoted "lnbc1") a.
Proof.
  apply (@payment_only_for_challenge _ _ _ _
           status_code headers_get transport wallet
           "GET" demo_url [] no_kwargs []
           (wallet_pays "P1" [Returned (challenge standard_header); Returned ok])
           "lnbc1" (Returned (Some "P1"))).
  do 3 right. left. reflexivity.
Defined.

(** Scenario C: the invoice is not quoted. *)
Lemma diagnostic_names_cause_witness :
  let a := "L402 macaroon=" +:+ quoted "M1" +:+ ", invoice=lnbc1" in
  let run := call "GET" demo_url [] no_kwargs [] (wallet_pays "P1" [Returned (challenge a)]) in
  (In (EvPrint LogNoHeader) (w_trace run.2) <->
   headers_get (challenge a) "WWW-Authenticate" = None \/
   headers_get (challenge a) "WWW-Authenticate" = Some "") /\
  (In (EvPrint LogNoScheme) (w_trace run.2) <->
   exists a', headers_get (challenge a) "WWW-Authenticate" = Some a' /\ a' <> "" /\
              lacks_scheme a') /\
  (In (EvPrint LogInvalidFormat) (w_trace run.2) <->
   exists a', headers_get (challenge a) "WWW-Authenticate" = Some a' /\ ~ lacks_scheme a' /\
              ~ (has_value "macaroon" a' /\ has_value "invoice" a')).
Proof.
  intros a.
  apply (@diagnostic_names_cause _ _ _ _
           status_code headers_get transport wallet
           "GET" demo_url [] no_kwargs [] (wallet_pays "P1" [Returned (challenge a)])
           (challenge a) (wallet_pays "P1" [])).
  - reflexivity.
  - reflexivity.
Defined.

Lemma agent_wallet_pays_and_retries_witness :
  let run := DemoAgent.call "GET" demo_url [] no_kwargs []
               ([Returned (challenge standard_header); Returned ok], []) in
  exists l2 hdrs out2 env3,
    DemoAgent.scripted_transport (retry_call "GET" demo_url [] no_kwargs l2) (w_heap run.2)
      ([Returned ok],
       ([] ++ [DemoAgent.WalletReceived (String.length "lnbc1"); DemoAgent.WalletDeciding;
               DemoAgent.WalletSigning; DemoAgent.WalletSent])%list)
    = (out2, env3) /\
    run.1 = out2 /\
    w_env run.2 = env3 /\
    pays (w_trace run.2)
    = [EvPay "lnbc1"
         (Returned (Some "a1b2c3d4e5f67890a1b2c3d4e5f67890a1b2c3d4e5f67890a1b2c3d4e5f67890"))] /\
    sends (w_trace run.2)
    = [first_send "GET" demo_url [] no_kwargs [] (Returned (challenge standard_header));
       EvSend (retry_call "GET" demo_url [] no_kwargs l2) (Some hdrs) out2] /\
    hdrs !! "Authorization"
    = Some ("L402 " +:+ "M1"
            +:+ ":a1b2c3d4e5f67890a1b2c3d4e5f67890a1b2c3d4e5f67890a1b2c3d4e5f67890").
Proof.
  apply (@agent_wallet_pays_and_retries _ _ _ _
           status_code headers_get DemoAgent.scripted_transport
           "GET" demo_url [] no_kwargs []
           ([Returned (challenge standard_header); Returned ok], [])
           (challenge standard_header) ([Returned ok], [])
           standard_header "M1" "lnbc1").
  - reflexivity.
  - reflexivity.
  - reflexivity.
  - reflexivity.
Defined.

(** The agent demo's wallet on the standard challenge, evaluated. *)
Example agent_wallet_run :
  let run := DemoAgent.call "GET" demo_url [] no_kwargs []
               ([Returned (challenge standard_header); Returned ok], []) in
  run.1 = Returned ok /\
  w_env run.2
  = ([], [DemoAgent.WalletReceived 5; DemoAgent.WalletDeciding;
          DemoAgent.WalletSigning; DemoAgent.WalletSent]) /\
  String.length DemoAgent.fake_preimage = 64.
Proof. repeat split; vm_compute; reflexivity. Qed.

End MoreRuns.

(** *** Headers that lack a key or the scheme token and are paid *)

(** C3, as stated, fails.  In the first header the scheme token is L402
    and the only keys are [macaroon] and [xinvoice]: the key [invoice]
    is absent.  In the second the scheme token is Bearer, neither L402
    nor LSAT, and both keys are absent.  On each the session does not
    return the original 402: the wallet is asked to pay the value of
    [xinvoice], a second request is sent, and its response is the
    result. *)
Lemma request_unusable_challenge_counterexample :
  (let ps := [("macaroon", "M1"); ("xinvoice", "lnbc1")] in
   let a := render_challenge "L402" ps in
   let run := Mock.call "GET" Mock.demo_url [] Mock.no_kwargs []
                (Mock.wallet_pays "P1" [Returned (Mock.challenge a); Returned Mock.ok]) in
   ~ In "invoice" (List.map fst ps) /\
   run.1 = Returned Mock.ok /\
   run.1 <> Returned (Mock.challenge a) /\
   pays (w_trace run.2) = [EvPay "lnbc1" (Returned (Some "P1"))] /\
   length (sends (w_trace run.2)) = 2) /\
  (let ps := [("notmacaroon", "L402"); ("xinvoice", "lnbc1")] in
   let a := render_challenge "Bearer" ps in
   let run := Mock.call "GET" Mock.demo_url [] Mock.no_kwargs []
                (Mock.wallet_pays "P1" [Returned (Mock.challenge a); Returned Mock.ok]) in
   ~ scheme_word "Bearer" /\
   ~ In "macaroon" (List.map fst ps) /\
   ~ In "invoice" (List.map fst ps) /\
   run.1 = Returned Mock.ok /\
   run.1 <> Returned (Mock.challenge a) /\
   pays (w_trace run.2) = [EvPay "lnbc1" (Returned (Some "P1"))] /\
   length (sends (w_trace run.2)) = 2).
Proof.
  split; cbv zeta.
  - split; [intros [H | [H | []]]; discriminate H|].
    split; [vm_compute; reflexivity|].
    split; [vm_compute; discriminate|].
    split; vm_compute; reflexivity.
  - split; [intros [H | H]; discriminate H|].
    split; [intros [H | [H | []]]; discriminate H|].
    split; [intros [H | [H | []]]; discriminate H|].
    split; [vm_compute; reflexivity|].
    split; [vm_compute; discriminate|].
    split; vm_compute; reflexivity.
Qed.

(** A key that is first unquoted and then quoted is parsed from its
    second occurrence. *)
Example parse_unquoted_then_quoted :
  parse_challenge
    ("L402 macaroon=x, macaroon=" +:+ quoted "M" +:+ ", invoice=" +:+ quoted "I")
  = inr ("M", "I").
Proof. reflexivity. Qed.
